(** * GitHub Portfolio MCP Server: a shallow embedding of [index.ts]

    The server answers six read-only queries about one GitHub account and
    offers them over two transports (MCP over stdio, and a small Express
    REST proxy).  This file embeds the handlers, the tool registry, the
    [POST /call/:tool] route and the start-up transport choice, together
    with the fragments of the JavaScript runtime they rely on, and states
    the properties of the specification about them.  The earlier,
    stdio-only version of the server registers the same handler bodies
    inline; what is proved of a handler here holds of it as well.

    Conventions.
    - A JavaScript string is a [string] holding the UTF-8 bytes of a
      well-formed text; substring search on such byte strings agrees with
      substring search on UTF-16 code units.
    - Integral JavaScript numbers are [Z]; arithmetic on them is exact
      below 2^53.  [NaN] is written out where it can arise.
    - A promise that rejects, or a statement that throws, is [Throw].
    - TypeScript types are erased at run time, so tool arguments are
      [Json] values read field by field, the way the handlers read them. *)

From Stdlib Require Import String Ascii List ZArith NArith QArith Bool Lia.
From Stdlib Require Import Qround Qpower Qabs Lqa OrderedTypeEx.
From Stdlib Require Import Sorting.Sorted Sorting.Permutation.
Import ListNotations.

Set Warnings "-register-all".
Set Implicit Arguments.
Unset Strict Implicit.

Open Scope list_scope.
Open Scope string_scope.

(* ------------------------------------------------------------------ *)
(** ** Strings                                                          *)
(* ------------------------------------------------------------------ *)

(** The line feed and the double quote, which string literals cannot
    spell directly. *)
Definition nl : string := String (ascii_of_nat 10) EmptyString.
Definition dquote : string := String (ascii_of_nat 34) EmptyString.

(** [Array.prototype.join]. *)
Fixpoint join (sep : string) (l : list string) : string :=
  match l with
  | [] => ""
  | [x] => x
  | x :: l' => x ++ sep ++ join sep l'
  end.

(** Decimal rendering of an integral Number ([Number::toString], radix 10,
    for integers of magnitude below 10^21). *)
Fixpoint digits_of_pos_fuel (fuel : nat) (n : Z) (acc : string) : string :=
  match fuel with
  | O => acc
  | S fuel' =>
      let d := String (ascii_of_nat (48 + Z.to_nat (n mod 10))) EmptyString in
      if (n <? 10)%Z then d ++ acc
      else digits_of_pos_fuel fuel' (n / 10)%Z (d ++ acc)
  end.

Definition digits_of_nonneg (n : Z) : string :=
  digits_of_pos_fuel (S (Z.to_nat (Z.log2 n))) n "".

Definition Number_toString (n : Z) : string :=
  if (n <? 0)%Z then "-" ++ digits_of_nonneg (- n) else digits_of_nonneg n.

(** [String.prototype.includes]: [includes s q] is [s.includes(q)]. *)
Fixpoint includes (s q : string) : bool :=
  prefix q s ||
  match s with
  | EmptyString => false
  | String _ s' => includes s' q
  end.

(** The declarative reading of "q occurs as a substring of s". *)
Definition Substring (q s : string) : Prop :=
  exists pre post, s = pre ++ q ++ post.

(* ------------------------------------------------------------------ *)
(** ** JSON values and [JSON.stringify (value, null, 2)]                *)
(* ------------------------------------------------------------------ *)

(** Numbers are restricted to the integers this program handles. Object
    members are kept in property order. *)
Inductive Json : Type :=
| JNull
| JBool (b : bool)
| JNum (n : Z)
| JStr (s : string)
| JArr (items : list Json)
| JObj (members : list (string * Json)).

Definition hex_digit (n : nat) : ascii :=
  ascii_of_nat (if Nat.ltb n 10 then 48 + n else 87 + n).

(** [QuoteJSONString], one byte at a time: the two-character escapes, the
    [\u00xx] form for the other control characters, everything else
    verbatim. *)
Definition escape_char (c : ascii) : string :=
  let n := nat_of_ascii c in
  if Nat.eqb n 8 then "\b"
  else if Nat.eqb n 9 then "\t"
  else if Nat.eqb n 10 then "\n"
  else if Nat.eqb n 12 then "\f"
  else if Nat.eqb n 13 then "\r"
  else if Nat.eqb n 34 then "\" ++ dquote
  else if Nat.eqb n 92 then "\\"
  else if Nat.ltb n 32 then
    "\u00" ++ String (hex_digit (n / 16)) (String (hex_digit (n mod 16)) EmptyString)
  else String c EmptyString.

Fixpoint escape (s : string) : string :=
  match s with
  | EmptyString => ""
  | String c s' => escape_char c ++ escape s'
  end.

Definition QuoteJSONString (s : string) : string := dquote ++ escape s ++ dquote.

(** [SerializeJSONProperty] with a gap of two spaces; [indent] is the
    current indentation. *)
Fixpoint stringify_at (indent : string) (v : Json) : string :=
  match v with
  | JNull => "null"
  | JBool true => "true"
  | JBool false => "false"
  | JNum n => Number_toString n
  | JStr s => QuoteJSONString s
  | JArr [] => "[]"
  | JArr items =>
      let stepback := indent in
      let indent := indent ++ "  " in
      "[" ++ nl ++ indent
          ++ join ("," ++ nl ++ indent) (map (stringify_at indent) items)
          ++ nl ++ stepback ++ "]"
  | JObj [] => "{}"
  | JObj members =>
      let stepback := indent in
      let indent := indent ++ "  " in
      "{" ++ nl ++ indent
          ++ join ("," ++ nl ++ indent)
               (map (fun kv => match kv with
                               | (k, x) => QuoteJSONString k ++ ": " ++ stringify_at indent x
                               end) members)
          ++ nl ++ stepback ++ "}"
  end.

Definition JSON_stringify (v : Json) : string := stringify_at "" v.

(** Property access [v.k] on a value obtained from [JSON.parse]: the own
    member named [k] of an object (a duplicated name keeps its last
    value), [undefined] otherwise.  None of the names read this way
    ([args], [include_forks], [sort], [repo_name], [query]) is defined
    with a string value by a built-in prototype, and the handlers are
    never called with [null] or [undefined]. *)
Fixpoint member (k : string) (members : list (string * Json)) : option Json :=
  match members with
  | [] => None
  | (k', x) :: rest =>
      match member k rest with
      | Some y => Some y
      | None => if k' =? k then Some x else None
      end
  end.

Definition field (v : Json) (k : string) : option Json :=
  match v with
  | JObj members => member k members
  | _ => None
  end.

(** [ToBoolean]; [None] is [undefined]. *)
Definition truthy (v : option Json) : bool :=
  match v with
  | None | Some JNull => false
  | Some (JBool b) => b
  | Some (JNum n) => negb (n =? 0)%Z
  | Some (JStr s) => negb (s =? "")
  | Some (JArr _) | Some (JObj _) => true
  end.

(** [v === s] for a string literal [s]. *)
Definition is_string (v : option Json) (s : string) : bool :=
  match v with
  | Some (JStr s') => s' =? s
  | _ => false
  end.

(** [a ?? b]. *)
Definition nullish_or (v : option Json) (d : Json) : Json :=
  match v with
  | None | Some JNull => d
  | Some x => x
  end.

(** [ToString], as a template literal applies it, where the conversion
    returns: an array is joined with commas, and an object without an own
    member named [toString] reads [[object Object]].  (With such a member
    the conversion throws instead, before any request is made; a
    [repo_name] of the declared type, a string, is left as it is.) *)
Fixpoint ToString_json (v : Json) : string :=
  match v with
  | JNull => "null"
  | JBool true => "true"
  | JBool false => "false"
  | JNum n => Number_toString n
  | JStr s => s
  | JArr items =>
      join "," (map (fun x => match x with
                              | JNull => ""
                              | _ => ToString_json x
                              end) items)
  | JObj _ => "[object Object]"
  end.

Definition ToString (v : option Json) : string :=
  match v with
  | None => "undefined"
  | Some x => ToString_json x
  end.

(* ------------------------------------------------------------------ *)
(** ** Ordinary objects used as dictionaries                            *)
(* ------------------------------------------------------------------ *)

(** The own enumerable string-keyed properties of an object, in creation
    order.  Objects made by a literal or by [JSON.parse] inherit from
    [Object.prototype]. *)
Definition JsObject (V : Type) : Type := list (string * V).

(** The properties of [Object.prototype]. *)
Inductive ProtoMember : Type :=
| P_constructor | P_defineGetter | P_defineSetter | P_hasOwnProperty
| P_lookupGetter | P_lookupSetter | P_isPrototypeOf | P_propertyIsEnumerable
| P_toString | P_valueOf | P_proto | P_toLocaleString.

Definition Object_prototype : list (string * ProtoMember) :=
  [ ("constructor", P_constructor);
    ("__defineGetter__", P_defineGetter);
    ("__defineSetter__", P_defineSetter);
    ("hasOwnProperty", P_hasOwnProperty);
    ("__lookupGetter__", P_lookupGetter);
    ("__lookupSetter__", P_lookupSetter);
    ("isPrototypeOf", P_isPrototypeOf);
    ("propertyIsEnumerable", P_propertyIsEnumerable);
    ("toString", P_toString);
    ("valueOf", P_valueOf);
    ("__proto__", P_proto);
    ("toLocaleString", P_toLocaleString) ].

Fixpoint assoc {V : Type} (k : string) (l : list (string * V)) : option V :=
  match l with
  | [] => None
  | (k', v) :: rest => if k' =? k then Some v else assoc k rest
  end.

(** What [ToPrimitive] yields for the value read through an inherited
    name: the source text of a built-in function, and [[object Object]]
    for the prototype object that [__proto__] reads. *)
Definition member_text (m : ProtoMember) : string :=
  match m with
  | P_constructor => "function Object() { [native code] }"
  | P_defineGetter => "function __defineGetter__() { [native code] }"
  | P_defineSetter => "function __defineSetter__() { [native code] }"
  | P_hasOwnProperty => "function hasOwnProperty() { [native code] }"
  | P_lookupGetter => "function __lookupGetter__() { [native code] }"
  | P_lookupSetter => "function __lookupSetter__() { [native code] }"
  | P_isPrototypeOf => "function isPrototypeOf() { [native code] }"
  | P_propertyIsEnumerable => "function propertyIsEnumerable() { [native code] }"
  | P_toString => "function toString() { [native code] }"
  | P_valueOf => "function valueOf() { [native code] }"
  | P_proto => "[object Object]"
  | P_toLocaleString => "function toLocaleString() { [native code] }"
  end.

(** The outcome of the property read [o[k]]. *)
Inductive Lookup (V : Type) : Type :=
| Own (v : V)
| Inherited (m : ProtoMember)
| Absent.
Arguments Inherited {V} m.
Arguments Absent {V}.

Definition Get {V : Type} (o : JsObject V) (k : string) : Lookup V :=
  match assoc k o with
  | Some v => Own v
  | None =>
      match assoc k Object_prototype with
      | Some m => Inherited m
      | None => Absent
      end
  end.

(** [CreateDataProperty]: overwrite in place, or append. *)
Fixpoint define_own {V : Type} (o : JsObject V) (k : string) (v : V) : JsObject V :=
  match o with
  | [] => [(k, v)]
  | (k', v') :: rest =>
      if k' =? k then (k', v) :: rest else (k', v') :: define_own rest k v
  end.

(** The assignment [o[k] = v] of a primitive [v].  An own property is
    overwritten; the inherited [__proto__] setter ignores a primitive;
    any other name becomes a new own property. *)
Definition Set_primitive {V : Type} (o : JsObject V) (k : string) (v : V) : JsObject V :=
  match Get o k with
  | Inherited P_proto => o
  | _ => define_own o k v
  end.

(** A canonical array index: the decimal spelling, without leading zero,
    of an integer below 2^32 - 1. *)
Definition is_digit (c : ascii) : bool :=
  let n := nat_of_ascii c in Nat.leb 48 n && Nat.leb n 57.

Fixpoint decimal_value (s : string) (acc : N) : option N :=
  match s with
  | EmptyString => Some acc
  | String c s' =>
      if is_digit c
      then decimal_value s' (10 * acc + N.of_nat (nat_of_ascii c - 48))%N
      else None
  end.

Definition array_index (k : string) : option N :=
  match k with
  | EmptyString => None
  | String c rest =>
      if (nat_of_ascii c =? 48)%nat
      then match rest with EmptyString => Some 0%N | _ => None end
      else match decimal_value k 0 with
           | Some n => if (n <? 4294967295)%N then Some n else None
           | None => None
           end
  end.

Definition is_array_index (k : string) : bool :=
  match array_index k with Some _ => true | None => false end.

(* ------------------------------------------------------------------ *)
(** ** [Array.prototype.sort]                                           *)
(* ------------------------------------------------------------------ *)

(** [SortCompare] turns a [NaN] comparator result ([None]) into [+0]. *)
Definition SortCompare (r : option Z) : Z :=
  match r with Some z => z | None => 0%Z end.

(** The sort is stable.  For a consistent comparator the result is
    therefore the one list that is ordered and keeps equal elements in
    their original order, which this insertion sort computes.  For an
    inconsistent comparator the engine may return any permutation; the
    statements below that speak of order assume consistency. *)
Fixpoint insert_sorted {A : Type} (cmp : A -> A -> Z) (x : A) (l : list A) : list A :=
  match l with
  | [] => [x]
  | y :: l' => if (cmp x y <=? 0)%Z then x :: l else y :: insert_sorted cmp x l'
  end.

Definition Array_sort {A : Type} (cmp : A -> A -> Z) (l : list A) : list A :=
  fold_right (insert_sorted cmp) [] l.

(** [OrdinaryOwnPropertyKeys], the order that [Object.entries],
    [Object.keys] and [Object.values] follow: array indices in ascending
    numeric order, then the other names in creation order. *)
Definition index_of (k : string) : Z :=
  match array_index k with Some n => Z.of_N n | None => 0%Z end.

Definition Object_entries {V : Type} (o : JsObject V) : list (string * V) :=
  Array_sort (fun a b => (index_of (fst a) - index_of (fst b))%Z)
             (filter (fun kv => is_array_index (fst kv)) o)
  ++ filter (fun kv => negb (is_array_index (fst kv))) o.

Definition Object_keys {V : Type} (o : JsObject V) : list string :=
  map fst (Object_entries o).

Definition Object_values {V : Type} (o : JsObject V) : list V :=
  map snd (Object_entries o).

(** The object that [JSON.parse] builds from the members of a JSON
    object, in document order. *)
Definition JSON_parse_object {V : Type} (members : list (string * V)) : JsObject V :=
  fold_left (fun o kv => define_own o (fst kv) (snd kv)) members [].

(* ------------------------------------------------------------------ *)
(** ** Locale-dependent string operations                               *)
(* ------------------------------------------------------------------ *)

(** The run-time faults this program can provoke; each raises a
    [TypeError] whose message text is chosen by the engine. *)
Inductive Fault : Type :=
| ReadOfUndefined (property : string)
| ReadOfNull (property : string)
| NotAFunction (expression : string)
| BuiltinWithoutReceiver (m : ProtoMember) (argument : Json).

(** [String.prototype.toLowerCase] follows the Unicode case tables,
    [String.prototype.localeCompare] the collation of the host locale, and
    the wording of a [TypeError] is the engine's; all three are fixed for
    a running process and taken from the platform. *)
Class Platform : Type := {
  toLowerCase : string -> string;
  localeCompare : string -> string -> Z;
  fault_message : Fault -> string
}.

(** ECMAScript requires [localeCompare] to be a consistent comparison
    function: it induces a total preorder on strings. *)
Record Consistent (cmp : string -> string -> Z) : Prop := {
  cmp_total : forall a b, (0 < cmp a b)%Z -> (cmp b a <= 0)%Z;
  cmp_trans : forall a b c, (cmp a b <= 0)%Z -> (cmp b c <= 0)%Z -> (cmp a c <= 0)%Z
}.

(** A reference platform for ASCII text: bytewise lower-casing of the
    letters A to Z and comparison by code unit. *)
Definition ascii_lower (c : ascii) : ascii :=
  let n := nat_of_ascii c in
  if Nat.leb 65 n && Nat.leb n 90 then ascii_of_nat (n + 32) else c.

Fixpoint ascii_toLowerCase (s : string) : string :=
  match s with
  | EmptyString => EmptyString
  | String c s' => String (ascii_lower c) (ascii_toLowerCase s')
  end.

Definition codeunit_compare (a b : string) : Z :=
  match String.compare a b with
  | Lt => (-1)%Z
  | Eq => 0%Z
  | Gt => 1%Z
  end.

Definition v8_message (f : Fault) : string :=
  match f with
  | ReadOfUndefined p => "Cannot read properties of undefined (reading '" ++ p ++ "')"
  | ReadOfNull p => "Cannot read properties of null (reading '" ++ p ++ "')"
  | NotAFunction e => e ++ " is not a function"
  | BuiltinWithoutReceiver _ _ => "Cannot convert undefined or null to object"
  end.

Definition ascii_platform : Platform :=
  {| toLowerCase := ascii_toLowerCase;
     localeCompare := codeunit_compare;
     fault_message := v8_message |}.

(* ------------------------------------------------------------------ *)
(** ** Exceptions and promises                                          *)
(* ------------------------------------------------------------------ *)

Record JsError : Type := { error_name : string; error_message : string }.

Definition Error (msg : string) : JsError :=
  {| error_name := "Error"; error_message := msg |}.
Definition TypeError {platform : Platform} (f : Fault) : JsError :=
  {| error_name := "TypeError"; error_message := fault_message f |}.

(** [String(err)], that is [Error.prototype.toString]. *)
Definition String_of_error (e : JsError) : string :=
  if error_name e =? "" then error_message e
  else if error_message e =? "" then error_name e
  else error_name e ++ ": " ++ error_message e.

(** The settlement of an awaited promise. *)
Inductive Result (A : Type) : Type :=
| Ok (a : A)
| Throw (e : JsError).
Arguments Throw {A} e.

Definition bind {A B : Type} (m : Result A) (k : A -> Result B) : Result B :=
  match m with
  | Ok a => k a
  | Throw e => Throw e
  end.

Notation "x <- m ;; k" := (bind m (fun x => k))
  (at level 61, m at next level, right associativity).

(* ------------------------------------------------------------------ *)
(** ** The upstream API                                                 *)
(* ------------------------------------------------------------------ *)

Record GHRepo : Type := {
  name : string;
  full_name : string;
  html_url : string;
  description : option string;
  language : option string;
  stargazers_count : Z;
  forks_count : Z;
  topics : list string;
  fork : bool;
  created_at : string;
  updated_at : string;
  pushed_at : string
}.

Record GHUser : Type := {
  login : string;
  user_name : option string;
  bio : option string;
  user_html_url : string;
  avatar_url : string;
  location : option string;
  company : option string;
  blog : string;
  public_repos : Z;
  followers : Z;
  following : Z
}.

Record Request : Type := { url : string; request_headers : JsObject string }.

(** What [fetch] resolves to: the status line and the outcome of reading
    the body with [json()] or [text()]. *)
Record Response (T : Type) : Type := {
  ok : bool;
  status : Z;
  statusText : string;
  body : Result T
}.

(** [fetch] itself rejects on a network failure. *)
Definition Fetch (T : Type) : Type := Request -> Result (Response T).

(** A snapshot of the hosting API: every endpoint answers with its
    documented shape. *)
Record Upstream : Type := {
  repos_endpoint : Fetch (list GHRepo);
  repo_endpoint : Fetch GHRepo;
  languages_endpoint : Fetch (list (string * N));
  user_endpoint : Fetch GHUser;
  raw_endpoint : Fetch string
}.

(* ------------------------------------------------------------------ *)
(** ** Configuration                                                    *)
(* ------------------------------------------------------------------ *)

(** [process.env]. *)
Definition Env : Type := string -> option string.

Definition env_truthy (v : option string) : bool :=
  match v with
  | Some s => negb (s =? "")
  | None => false
  end.

Definition env_or (a b : option string) : option string :=
  match a with
  | Some _ => a
  | None => b
  end.

Record Config : Type := { GITHUB_USERNAME : string; headers : JsObject string }.

Definition GITHUB_API : string := "https://api.github.com".

Definition config_of_env (env : Env) : Config :=
  let base := [ ("Accept", "application/vnd.github.v3+json");
                ("User-Agent", "github-portfolio-mcp-server/1.0") ] in
  {| GITHUB_USERNAME :=
       match env "GITHUB_USERNAME" with Some u => u | None => "bdbrown4" end;
     headers :=
       if env_truthy (env "GITHUB_TOKEN")
       then Set_primitive base "Authorization"
              ("Bearer " ++ match env "GITHUB_TOKEN" with Some t => t | None => "" end)
       else base |}.

(* ------------------------------------------------------------------ *)
(** ** Number arithmetic outside the integers                           *)
(* ------------------------------------------------------------------ *)

(** A finite non-negative binary64 value is the rational it denotes.
    [RN] is rounding to the nearest binary64 value, ties to even, with 53
    significant bits and the gradual underflow below 2^-1022.  Quotients
    and products formed here stay far below the overflow threshold. *)
Definition binade (q : Q) : Z :=
  let k := (Z.log2 (Qnum q) - Z.log2 (Zpos (Qden q)))%Z in
  if Qle_bool (2 ^ k) q then k else (k - 1)%Z.

Definition round_half_even (q : Q) : Z :=
  let f := Qfloor q in
  match (q - inject_Z f ?= 1 # 2)%Q with
  | Lt => f
  | Gt => (f + 1)%Z
  | Eq => if Z.even f then f else (f + 1)%Z
  end.

Definition RN (q : Q) : Q :=
  if Qle_bool q 0 then 0%Q
  else
    let e := Z.max (binade q - 52) (-1074) in
    (inject_Z (round_half_even (q / 2 ^ e)) * 2 ^ e)%Q.

Definition Number_div (a b : Q) : Q := RN (a / b).
Definition Number_mul (a b : Q) : Q := RN (a * b).

(** [Number.prototype.toFixed(1)] of a non-negative value below 10^21:
    the integer [n] with [n / 10] closest to [x], the larger one on a tie,
    printed with its last digit after the point. *)
Definition nearest_tenth (x : Q) : Z := Qfloor (x * 10 + (1 # 2)).

Definition format_tenths (n : Z) : string :=
  digits_of_nonneg (n / 10) ++ "." ++ digits_of_nonneg (n mod 10).

Definition toFixed1 (x : Q) : string := format_tenths (nearest_tenth x).

(* ------------------------------------------------------------------ *)
(** ** Tool handlers                                                    *)
(* ------------------------------------------------------------------ *)

Definition json_of_option (s : option string) : Json :=
  match s with
  | Some x => JStr x
  | None => JNull
  end.

Definition no_readme : string := "(No README found)".

(** The counters of the tech-stack summary hold numbers, unless a name
    inherited from [Object.prototype] was read first: [+] then
    concatenates, and the stored text never reads as a number again. *)
Inductive Count : Type :=
| CNum (n : Z)
| CStr (s : string).

(** [(v ?? 0) + 1]. *)
Definition incremented (v : Lookup Count) : Count :=
  match v with
  | Absent => CNum 1
  | Own (CNum n) => CNum (n + 1)
  | Own (CStr s) => CStr (s ++ "1")
  | Inherited m => CStr (member_text m ++ "1")
  end.

(** [counts[k] = (counts[k] ?? 0) + 1]. *)
Definition bump (counts : JsObject Count) (k : string) : JsObject Count :=
  Set_primitive counts k (incremented (Get counts k)).

(** [b - a] on stored counters; [None] is [NaN]. *)
Definition Count_minus (b a : Count) : option Z :=
  match b, a with
  | CNum y, CNum x => Some (y - x)%Z
  | _, _ => None
  end.

Definition json_of_count (c : Count) : Json :=
  match c with
  | CNum n => JNum n
  | CStr s => JStr s
  end.

(** The body of the [for ... of originals] loop. *)
Definition count_repo (acc : JsObject Count * JsObject Count) (repo : GHRepo)
  : JsObject Count * JsObject Count :=
  let (langCounts, topicCounts) := acc in
  ( match language repo with
    | Some l => if l =? "" then langCounts else bump langCounts l
    | None => langCounts
    end,
    fold_left bump (topics repo) topicCounts ).

Definition by_count_descending (x y : string * Count) : Z :=
  SortCompare (Count_minus (snd y) (snd x)).

Record TechStackSummary : Type := {
  total_original_repos : Z;
  summary_languages : list (string * Count);
  summary_topics : list (string * Count)
}.

Definition techStackSummary (repos : list GHRepo) : TechStackSummary :=
  let originals := filter (fun r => negb (fork r)) repos in
  let (langCounts, topicCounts) := fold_left count_repo originals ([], []) in
  {| total_original_repos := Z.of_nat (length originals);
     summary_languages := Array_sort by_count_descending (Object_entries langCounts);
     summary_topics := Array_sort by_count_descending (Object_entries topicCounts) |}.

Definition json_of_summary (s : TechStackSummary) : Json :=
  JObj [ ("total_original_repos", JNum (total_original_repos s));
         ("languages",
          JArr (map (fun e => JObj [("language", JStr (fst e));
                                    ("repo_count", json_of_count (snd e))])
                    (summary_languages s)));
         ("topics",
          JArr (map (fun e => JObj [("topic", JStr (fst e));
                                    ("repo_count", json_of_count (snd e))])
                    (summary_topics s))) ].

(** One line of the language breakdown. *)
Record LanguageShare : Type := {
  share_language : string;
  share_bytes : N;
  percentage : string
}.

(** [(bytes / total) * 100]. *)
Definition sharePercent (total bytes : N) : Q :=
  Number_mul (Number_div (inject_Z (Z.of_N bytes)) (inject_Z (Z.of_N total))) 100.

Definition languageBreakdown (languages : JsObject N) : list LanguageShare :=
  let total := fold_left N.add (Object_values languages) 0%N in
  map (fun e =>
         {| share_language := fst e;
            share_bytes := snd e;
            percentage :=
              if (0 <? total)%N
              then toFixed1 (sharePercent total (snd e)) ++ "%"
              else "0%" |})
      (Object_entries languages).

Definition json_of_share (e : LanguageShare) : Json :=
  JObj [ ("language", JStr (share_language e));
         ("bytes", JNum (Z.of_N (share_bytes e)));
         ("percentage", JStr (percentage e)) ].

Section Handlers.

Context {platform : Platform}.
Variable cfg : Config.
Variable gh : Upstream.

Definition apiRequest (path : string) : Request :=
  {| url := GITHUB_API ++ path; request_headers := headers cfg |}.

Definition ghFetch {T : Type} (endpoint : Fetch T) (path : string) : Result T :=
  res <- endpoint (apiRequest path) ;;
  if ok res then body res
  else Throw (Error ("GitHub API " ++ Number_toString (status res) ++ ": "
                       ++ statusText res ++ " — " ++ path)).

(** The repositories that [handleListRepos] prints, in output order. *)
Definition listedRepos (args : Json) (repos : list GHRepo) : list GHRepo :=
  let filtered :=
    if truthy (field args "include_forks") then repos
    else filter (fun r => negb (fork r)) repos in
  if is_string (field args "sort") "stars"
  then Array_sort (fun a b => (stargazers_count b - stargazers_count a)%Z) filtered
  else if is_string (field args "sort") "name"
  then Array_sort (fun a b => localeCompare (name a) (name b)) filtered
  else filtered.

Definition repoSummary (r : GHRepo) : Json :=
  JObj [ ("name", JStr (name r));
         ("description", json_of_option (description r));
         ("language", json_of_option (language r));
         ("stars", JNum (stargazers_count r));
         ("forks", JNum (forks_count r));
         ("topics", JArr (map JStr (topics r)));
         ("url", JStr (html_url r));
         ("updated", JStr (updated_at r)) ].

Definition handleListRepos (args : Json) : Result string :=
  repos <- ghFetch (repos_endpoint gh)
             ("/users/" ++ GITHUB_USERNAME cfg ++ "/repos?per_page=100&sort=updated") ;;
  Ok (JSON_stringify (JArr (map repoSummary (listedRepos args repos)))).

Definition readmeRequest (repo_name : string) : Request :=
  {| url := GITHUB_API ++ "/repos/" ++ GITHUB_USERNAME cfg ++ "/" ++ repo_name
              ++ "/readme";
     request_headers :=
       define_own (headers cfg) "Accept" "application/vnd.github.v3.raw" |}.

(** The [try { ... } catch {}] around the README request. *)
Definition fetchReadme (repo_name : string) : string :=
  match raw_endpoint gh (readmeRequest repo_name) with
  | Ok readmeRes =>
      if ok readmeRes
      then match body readmeRes with
           | Ok text => text
           | Throw _ => no_readme
           end
      else no_readme
  | Throw _ => no_readme
  end.

Definition repoDetails (repo : GHRepo) : Json :=
  JObj [ ("name", JStr (name repo));
         ("full_name", JStr (full_name repo));
         ("description", json_of_option (description repo));
         ("language", json_of_option (language repo));
         ("stars", JNum (stargazers_count repo));
         ("forks", JNum (forks_count repo));
         ("topics", JArr (map JStr (topics repo)));
         ("url", JStr (html_url repo));
         ("created", JStr (created_at repo));
         ("updated", JStr (updated_at repo));
         ("pushed", JStr (pushed_at repo)) ].

Definition detailsText (repo : GHRepo) (readme : string) : string :=
  "## Repository: " ++ name repo ++ nl ++ nl
    ++ JSON_stringify (repoDetails repo)
    ++ nl ++ nl ++ "## README" ++ nl ++ nl ++ readme.

Definition handleGetRepoDetails (args : Json) : Result string :=
  let repo_name := ToString (field args "repo_name") in
  repo <- ghFetch (repo_endpoint gh)
            ("/repos/" ++ GITHUB_USERNAME cfg ++ "/" ++ repo_name) ;;
  let readme := fetchReadme repo_name in
  Ok (detailsText repo readme).

Definition handleGetLanguages (args : Json) : Result string :=
  languages <- ghFetch (languages_endpoint gh)
                 ("/repos/" ++ GITHUB_USERNAME cfg ++ "/"
                    ++ ToString (field args "repo_name") ++ "/languages") ;;
  Ok (JSON_stringify
        (JArr (map json_of_share (languageBreakdown (JSON_parse_object languages))))).

Definition handleGetProfile : Result string :=
  user <- ghFetch (user_endpoint gh) ("/users/" ++ GITHUB_USERNAME cfg) ;;
  Ok (JSON_stringify
        (JObj [ ("username", JStr (login user));
                ("name", json_of_option (user_name user));
                ("bio", json_of_option (bio user));
                ("location", json_of_option (location user));
                ("company", json_of_option (company user));
                ("website", JStr (blog user));
                ("avatar", JStr (avatar_url user));
                ("github_url", JStr (user_html_url user));
                ("public_repos", JNum (public_repos user));
                ("followers", JNum (followers user));
                ("following", JNum (following user)) ])).

(** The filter predicate of [handleSearchRepos], for the lower-cased
    query [q]. *)
Definition matchesQuery (q : string) (r : GHRepo) : bool :=
  includes (toLowerCase (name r)) q
  || match description r with
     | Some d => includes (toLowerCase d) q
     | None => false
     end
  || existsb (fun t => includes (toLowerCase t) q) (topics r).

Definition searchHit (r : GHRepo) : Json :=
  JObj [ ("name", JStr (name r));
         ("description", json_of_option (description r));
         ("language", json_of_option (language r));
         ("url", JStr (html_url r)) ].

Definition noMatchSentence (query : string) : string :=
  "No repositories matched " ++ dquote ++ query ++ dquote ++ ".".

(** [args.query.toLowerCase()] is evaluated after the fetch; a missing
    or non-string [query] makes it throw. *)
Definition handleSearchRepos (args : Json) : Result string :=
  repos <- ghFetch (repos_endpoint gh)
             ("/users/" ++ GITHUB_USERNAME cfg ++ "/repos?per_page=100") ;;
  match field args "query" with
  | Some (JStr query) =>
      let q := toLowerCase query in
      let matches := filter (matchesQuery q) repos in
      Ok (if (0 <? length matches)%nat
          then JSON_stringify (JArr (map searchHit matches))
          else noMatchSentence query)
  | None => Throw (TypeError (ReadOfUndefined "toLowerCase"))
  | Some JNull => Throw (TypeError (ReadOfNull "toLowerCase"))
  | Some _ => Throw (TypeError (NotAFunction "args.query.toLowerCase"))
  end.

Definition handleGetTechStackSummary : Result string :=
  repos <- ghFetch (repos_endpoint gh)
             ("/users/" ++ GITHUB_USERNAME cfg ++ "/repos?per_page=100") ;;
  Ok (JSON_stringify (json_of_summary (techStackSummary repos))).

End Handlers.

(* ------------------------------------------------------------------ *)
(** ** Tool registry and the REST proxy                                 *)
(* ------------------------------------------------------------------ *)

Inductive Tool : Type :=
| list_repos | get_repo_details | get_languages
| get_profile | search_repos | get_tech_stack_summary.

(** [TOOL_REGISTRY] is an object literal: six own properties, and the
    prototype of every object literal behind them. *)
Definition TOOL_REGISTRY : JsObject Tool :=
  [ ("list_repos", list_repos);
    ("get_repo_details", get_repo_details);
    ("get_languages", get_languages);
    ("get_profile", get_profile);
    ("search_repos", search_repos);
    ("get_tech_stack_summary", get_tech_stack_summary) ].

Record HttpResponse : Type := { http_status : Z; http_json : Json }.

Definition is_object (v : Json) : bool :=
  match v with
  | JArr _ | JObj _ => true
  | _ => false
  end.

Section Proxy.

Context {platform : Platform}.
Variable cfg : Config.
Variable gh : Upstream.

Definition runTool (t : Tool) (args : Json) : Result string :=
  match t with
  | list_repos => handleListRepos cfg gh args
  | get_repo_details => handleGetRepoDetails cfg gh args
  | get_languages => handleGetLanguages cfg gh args
  | get_profile => handleGetProfile cfg gh
  | search_repos => handleSearchRepos cfg gh args
  | get_tech_stack_summary => handleGetTechStackSummary cfg gh
  end.

(** [await handler(args)] when [handler] is a value inherited from
    [Object.prototype], called without a receiver.  [Object(args)]
    returns its argument; [toString] names the missing receiver;
    [isPrototypeOf] answers [false] for a primitive before it looks at
    the receiver; the prototype object read through [__proto__] is not
    callable; every other built-in needs a receiver. *)
Definition callInherited (m : ProtoMember) (args : Json) : Result Json :=
  match m with
  | P_constructor => Ok args
  | P_toString => Ok (JStr "[object Undefined]")
  | P_isPrototypeOf =>
      if is_object args then Throw (TypeError (BuiltinWithoutReceiver m args))
      else Ok (JBool false)
  | P_proto => Throw (TypeError (NotAFunction "handler"))
  | _ => Throw (TypeError (BuiltinWithoutReceiver m args))
  end.

Definition contentEnvelope (text : Json) : Json :=
  JObj [ ("content", JArr [ JObj [ ("type", JStr "text"); ("text", text) ] ]) ].

Definition settle (r : Result Json) : HttpResponse :=
  match r with
  | Ok text => {| http_status := 200; http_json := contentEnvelope text |}
  | Throw err =>
      {| http_status := 500;
         http_json := JObj [ ("error", JStr (String_of_error err)) ] |}
  end.

(** [app.post("/call/:tool", ...)]: [toolName] is the path parameter,
    [reqBody] the parsed JSON body. *)
Definition callRoute (toolName : string) (reqBody : Json) : HttpResponse :=
  match Get TOOL_REGISTRY toolName with
  | Absent =>
      {| http_status := 404;
         http_json :=
           JObj [ ("error", JStr ("Unknown tool: " ++ toolName));
                  ("available", JArr (map JStr (Object_keys TOOL_REGISTRY))) ] |}
  | Own t =>
      let args := nullish_or (field reqBody "args") (JObj []) in
      settle (text <- runTool t args ;; Ok (JStr text))
  | Inherited m =>
      let args := nullish_or (field reqBody "args") (JObj []) in
      settle (callInherited m args)
  end.

End Proxy.

(* ------------------------------------------------------------------ *)
(** ** Start-up: choosing the transport                                 *)
(* ------------------------------------------------------------------ *)

(** Leading [StrWhiteSpaceChar]s, in their UTF-8 spelling. *)
Fixpoint skip_whitespace (s : string) : string :=
  match s with
  | String c1 rest1 =>
      let n1 := nat_of_ascii c1 in
      if (Nat.leb 9 n1 && Nat.leb n1 13) || Nat.eqb n1 32 then skip_whitespace rest1
      else
        match rest1 with
        | String c2 rest2 =>
            let n2 := nat_of_ascii c2 in
            if Nat.eqb n1 194 && Nat.eqb n2 160 then skip_whitespace rest2
            else
              match rest2 with
              | String c3 rest3 =>
                  let n3 := nat_of_ascii c3 in
                  if (Nat.eqb n1 225 && Nat.eqb n2 154 && Nat.eqb n3 128)
                     || (Nat.eqb n1 226 && Nat.eqb n2 128
                         && ((Nat.leb 128 n3 && Nat.leb n3 138)
                             || Nat.eqb n3 168 || Nat.eqb n3 169 || Nat.eqb n3 175))
                     || (Nat.eqb n1 226 && Nat.eqb n2 129 && Nat.eqb n3 159)
                     || (Nat.eqb n1 227 && Nat.eqb n2 128 && Nat.eqb n3 128)
                     || (Nat.eqb n1 239 && Nat.eqb n2 187 && Nat.eqb n3 191)
                  then skip_whitespace rest3
                  else s
              | EmptyString => s
              end
        | EmptyString => s
        end
  | EmptyString => s
  end.

(** The longest prefix of decimal digits and its value. *)
Fixpoint leading_digits (s : string) (acc : option Z) : option Z :=
  match s with
  | String c s' =>
      if is_digit c
      then leading_digits s'
             (Some (10 * match acc with Some a => a | None => 0 end
                    + Z.of_nat (nat_of_ascii c - 48))%Z)
      else acc
  | EmptyString => acc
  end.

(** [parseInt(s, 10)]; [None] is [NaN].  The value is the mathematical
    integer, which is zero exactly when the resulting Number is. *)
Definition parseInt10 (s : string) : option Z :=
  match skip_whitespace s with
  | String c rest =>
      if (nat_of_ascii c =? 45)%nat
      then option_map Z.opp (leading_digits rest None)
      else if (nat_of_ascii c =? 43)%nat
      then leading_digits rest None
      else leading_digits (String c rest) None
  | EmptyString => None
  end.

Definition IS_CLOUD (env : Env) : bool :=
  env_truthy
    (env_or (env_or (env_or (env "RAILWAY_ENVIRONMENT") (env "RENDER"))
                    (env "FLY_APP_NAME"))
            (env "PORT")).

(** The value of the constant [PORT]: [null], [NaN] or an integer. *)
Inductive Port : Type :=
| PortNull
| PortNaN
| PortNumber (n : Z).

Definition PORT (env : Env) : Port :=
  match env "PORT" with
  | Some p =>
      if negb (p =? "")
      then match parseInt10 p with
           | Some n => PortNumber n
           | None => PortNaN
           end
      else if IS_CLOUD env then PortNumber 3000 else PortNull
  | None => if IS_CLOUD env then PortNumber 3000 else PortNull
  end.

Inductive Transport : Type :=
| StdioActive
| HttpActive (port : Z).

(** [main]: [if (PORT) startHttp() else startStdio()]. *)
Definition main (env : Env) : Transport :=
  match PORT env with
  | PortNumber n => if (n =? 0)%Z then StdioActive else HttpActive n
  | PortNaN | PortNull => StdioActive
  end.

(** An environment given by the variables that are set. *)
Definition env_of (vars : list (string * string)) : Env := fun k => assoc k vars.

(** Upstream snapshots for worked examples. *)
Definition answer {T : Type} (x : T) : Fetch T :=
  fun _ => Ok {| ok := true; status := 200; statusText := "OK"; body := Ok x |}.

Definition refuse {T : Type} (code : Z) (reason : string) : Fetch T :=
  fun _ => Ok {| ok := false; status := code; statusText := reason;
                 body := Throw (Error "Unexpected end of JSON input") |}.

Definition unreachable {T : Type} : Fetch T :=
  fun _ => Throw {| error_name := "TypeError"; error_message := "fetch failed" |}.

Definition snapshot (repos : list GHRepo) : Upstream :=
  {| repos_endpoint := answer repos;
     repo_endpoint := refuse 404 "Not Found";
     languages_endpoint := refuse 404 "Not Found";
     user_endpoint := refuse 404 "Not Found";
     raw_endpoint := refuse 404 "Not Found" |}.

Definition sample_repo (n : string) (lang : option string) (stars : Z)
                       (tags : list string) (is_fork : bool) : GHRepo :=
  {| name := n; full_name := "bdbrown4/" ++ n;
     html_url := "https://github.com/bdbrown4/" ++ n;
     description := None; language := lang;
     stargazers_count := stars; forks_count := 0;
     topics := tags; fork := is_fork;
     created_at := "2024-01-01T00:00:00Z";
     updated_at := "2024-06-01T00:00:00Z";
     pushed_at := "2024-06-01T00:00:00Z" |}.

Definition sample_repos : list GHRepo :=
  [ sample_repo "zeta" (Some "Go") 3 ["cli"] false;
    sample_repo "beta" (Some "Go") 7 ["cli"] true;
    sample_repo "alpha" (Some "Rust") 5 [] false ].

Definition sample_config : Config := config_of_env (env_of []).

(** Names used by the statements below. *)
Definition listReposPath (cfg : Config) : string :=
  "/users/" ++ GITHUB_USERNAME cfg ++ "/repos?per_page=100&sort=updated".

Definition withoutForks (repos : list GHRepo) : list GHRepo :=
  filter (fun r => negb (fork r)) repos.

Definition args_default : Json := JObj [].

Definition args_with_forks : Json := JObj [("include_forks", JBool true)].

Definition args_by_name : Json := JObj [("sort", JStr "name")].

Definition allReposPath (cfg : Config) : string :=
  "/users/" ++ GITHUB_USERNAME cfg ++ "/repos?per_page=100".

(** *** Vocabulary for the tech-stack summary *)

(** The names handed to [bump], in loop order. *)
Definition languageKeys (originals : list GHRepo) : list string :=
  flat_map (fun r => match language r with
                     | Some l => if l =? "" then [] else [l]
                     | None => []
                     end) originals.

Definition topicKeys (originals : list GHRepo) : list string :=
  flat_map topics originals.

Definition hasLanguage (r : GHRepo) : bool :=
  match language r with
  | Some _ => true
  | None => false
  end.

(** The distinct names of a list, each at its first occurrence. *)
Definition first_seen (keys : list string) : list string :=
  fold_left (fun seen k => if existsb (String.eqb k) seen then seen else (seen ++ [k])%list)
            keys [].

(** The same names in property order: array indices first, ascending. *)
Definition property_order (keys : list string) : list string :=
  Array_sort (fun a b => (index_of a - index_of b)%Z)
             (filter is_array_index (first_seen keys))
  ++ filter (fun k => negb (is_array_index k)) (first_seen keys).

Definition occurrences (k : string) (keys : list string) : Z :=
  Z.of_nat (count_occ string_dec keys k).

(** A name that [Object.prototype] does not define. *)
Definition plain (k : string) : Prop := assoc k Object_prototype = None.

Definition has_count (c : Count) (e : string * Count) : bool :=
  match snd e, c with
  | CNum a, CNum b => (a =? b)%Z
  | CStr a, CStr b => a =? b
  | _, _ => false
  end.

Definition counts_total (entries : list (string * Count)) : option Z :=
  fold_right (fun e acc => match snd e, acc with
                           | CNum n, Some t => Some (n + t)%Z
                           | _, _ => None
                           end)
             (Some 0%Z) entries.

Definition positive_counts (entries : list (string * Count)) : Prop :=
  Forall (fun e => exists n, snd e = CNum n /\ (1 <= n)%Z) entries.

Definition counted_from (keys : list string) (entries : list (string * Count)) : Prop :=
  forall k c, In (k, c) entries -> c = CNum (occurrences k keys).

Definition Count_ge (a b : string * Count) : Prop :=
  match snd a, snd b with
  | CNum x, CNum y => (y <= x)%Z
  | _, _ => False
  end.

Definition descending (entries : list (string * Count)) : Prop :=
  StronglySorted Count_ge entries.

(** Entries that carry the same count appear in the relative order that
    [order] gives to their names. *)
Definition ties_follow (order : list string) (entries : list (string * Count)) : Prop :=
  forall c,
    map fst (filter (has_count c) entries)
    = filter (fun k => existsb (fun e => (fst e =? k) && has_count c e) entries) order.

(** The properties stated of the tech-stack summary, for a given order
    among entries of equal count. *)
Definition techStackContract (order : list string -> list string)
                             (repos : list GHRepo) : Prop :=
  let s := techStackSummary repos in
  let originals := withoutForks repos in
  (techStackSummary originals = s
   /\ total_original_repos s = Z.of_nat (length originals))
  /\ summary_languages (techStackSummary (filter hasLanguage repos))
     = summary_languages s
  /\ (counted_from (topicKeys originals) (summary_topics s)
      /\ counts_total (summary_topics s)
         = Some (Z.of_nat (length (topicKeys originals))))
  /\ (positive_counts (summary_languages s) /\ positive_counts (summary_topics s))
  /\ (descending (summary_languages s) /\ descending (summary_topics s))
  /\ (ties_follow (order (languageKeys originals)) (summary_languages s)
      /\ ties_follow (order (topicKeys originals)) (summary_topics s)).

(** The bounds stated of the counts. *)
Definition techStackBounds (repos : list GHRepo) : Prop :=
  let s := techStackSummary repos in
  (exists n, counts_total (summary_languages s) = Some n
             /\ (n <= total_original_repos s)%Z)
  /\ Forall (fun e => exists n, snd e = CNum n /\ (n <= total_original_repos s)%Z)
            (summary_topics s).

Definition repo_2048 : GHRepo :=
  sample_repo "game" (Some "TypeScript") 1 ["puzzle"; "2048"] false.

Definition repo_repeated_topic : GHRepo :=
  sample_repo "tool" (Some "Go") 0 ["cli"; "cli"] false.

(** The counters after [bump]ing plain names, and their ranking. *)
Definition tallied (keys : list string) : JsObject Count :=
  map (fun k => (k, CNum (occurrences k keys))) (first_seen keys).

Definition ranked (counts : JsObject Count) : list (string * Count) :=
  Array_sort by_count_descending (Object_entries counts).

Definition numeric (e : string * Count) : Prop := exists n, snd e = CNum n.

Definition count_value (e : string * Count) : Z :=
  match snd e with
  | CNum n => n
  | CStr _ => 0%Z
  end.

Definition zsum (l : list Z) : Z := fold_right Z.add 0%Z l.

(** *** Vocabulary for the other handlers *)

(** A repository matches the lower-cased query [q]. *)
Definition Matches {platform : Platform} (q : string) (r : GHRepo) : Prop :=
  Substring q (toLowerCase (name r))
  \/ (exists d, description r = Some d /\ Substring q (toLowerCase d))
  \/ (exists t, In t (topics r) /\ Substring q (toLowerCase t)).

(** The README request did not deliver a text: [fetch] rejected, the
    status was not 2xx, or reading the body failed. *)
Definition readmeFailed (outcome : Result (Response string)) : Prop :=
  match outcome with
  | Throw _ => True
  | Ok res => ok res = false \/ exists e, body res = Throw e
  end.

Definition repoPath (cfg : Config) (args : Json) : string :=
  "/repos/" ++ GITHUB_USERNAME cfg ++ "/" ++ ToString (field args "repo_name").

Definition languagesPath (cfg : Config) (args : Json) : string :=
  "/repos/" ++ GITHUB_USERNAME cfg ++ "/" ++ ToString (field args "repo_name")
    ++ "/languages".

(** Two snapshots answer alike every request that the tool issues for
    these arguments. *)
Definition sameAnswers (cfg : Config) (t : Tool) (args : Json)
                       (gh1 gh2 : Upstream) : Prop :=
  match t with
  | list_repos =>
      repos_endpoint gh1 (apiRequest cfg (listReposPath cfg))
      = repos_endpoint gh2 (apiRequest cfg (listReposPath cfg))
  | get_repo_details =>
      repo_endpoint gh1 (apiRequest cfg (repoPath cfg args))
      = repo_endpoint gh2 (apiRequest cfg (repoPath cfg args))
      /\ raw_endpoint gh1 (readmeRequest cfg (ToString (field args "repo_name")))
         = raw_endpoint gh2 (readmeRequest cfg (ToString (field args "repo_name")))
  | get_languages =>
      languages_endpoint gh1 (apiRequest cfg (languagesPath cfg args))
      = languages_endpoint gh2 (apiRequest cfg (languagesPath cfg args))
  | get_profile =>
      user_endpoint gh1 (apiRequest cfg ("/users/" ++ GITHUB_USERNAME cfg))
      = user_endpoint gh2 (apiRequest cfg ("/users/" ++ GITHUB_USERNAME cfg))
  | search_repos | get_tech_stack_summary =>
      repos_endpoint gh1 (apiRequest cfg (allReposPath cfg))
      = repos_endpoint gh2 (apiRequest cfg (allReposPath cfg))
  end.

Definition sample_user : GHUser :=
  {| login := "bdbrown4"; user_name := Some "B"; bio := None;
     user_html_url := "https://github.com/bdbrown4";
     avatar_url := "https://avatars.githubusercontent.com/u/1";
     location := None; company := None; blog := "";
     public_repos := 3; followers := 1; following := 2 |}.

(** A snapshot in which the repository "zeta" exists and has no README. *)
Definition snapshot_without_readme : Upstream :=
  {| repos_endpoint := answer sample_repos;
     repo_endpoint := answer (sample_repo "zeta" (Some "Go") 3 ["cli"] false);
     languages_endpoint := answer [("Go", 300%N); ("Shell", 100%N)];
     user_endpoint := answer sample_user;
     raw_endpoint := refuse 404 "Not Found" |}.

Definition args_query (q : string) : Json := JObj [("query", JStr q)].
Definition args_repo (n : string) : Json := JObj [("repo_name", JStr n)].

(** The unit roundoff of binary64, 2^-53. *)
Definition unit_roundoff : Q := 1 # 9007199254740992.

(** The percentage of [bytes] in [total] as a rational, and the tenths
    that [toFixed(1)] prints for the computed Number. *)
Definition exactPercent (total bytes : N) : Q :=
  (100 * inject_Z (Z.of_N bytes) / inject_Z (Z.of_N total))%Q.

Definition shareTenths (total bytes : N) : Z :=
  nearest_tenth (sharePercent total bytes).

Definition args_none : Json := JObj [].

Definition Nsum (l : list N) : N := fold_right N.add 0%N l.

(** What is stated of one line of the breakdown when the total is
    positive: the percentage prints the tenths nearest to the computed
    Number, and that Number is the exact percentage up to rounding. *)
Definition printedShare (total : N) (e : LanguageShare) : Prop :=
  percentage e = format_tenths (shareTenths total (share_bytes e)) ++ "%"
  /\ (sharePercent total (share_bytes e) * 10 - (1 # 2)
        < inject_Z (shareTenths total (share_bytes e)))%Q
  /\ (inject_Z (shareTenths total (share_bytes e))
        <= sharePercent total (share_bytes e) * 10 + (1 # 2))%Q
  /\ (exactPercent total (share_bytes e) * (1 - 3 * unit_roundoff)
        <= sharePercent total (share_bytes e))%Q
  /\ (sharePercent total (share_bytes e)
        <= exactPercent total (share_bytes e) * (1 + 3 * unit_roundoff))%Q.

(** Decimal numerals, read digit by digit: the value of a digit
    character, and of a run of digits after the value [acc] of the digits
    before it. *)
Definition digit_value (c : ascii) : option Z :=
  assoc (String c EmptyString)
        [ ("0", 0%Z); ("1", 1%Z); ("2", 2%Z); ("3", 3%Z); ("4", 4%Z);
          ("5", 5%Z); ("6", 6%Z); ("7", 7%Z); ("8", 8%Z); ("9", 9%Z) ].

Fixpoint numeral_value (s : string) (acc : Z) : option Z :=
  match s with
  | EmptyString => Some acc
  | String c rest =>
      match digit_value c with
      | Some d => numeral_value rest (10 * acc + d)%Z
      | None => None
      end
  end.

(** [s] is the decimal numeral of [n]: one digit or more, worth [n], with
    no leading zero except in the numeral of zero. *)
Definition numeral (s : string) (n : Z) : Prop :=
  match s with
  | EmptyString => False
  | String c rest =>
      numeral_value s 0 = Some n /\ (digit_value c = Some 0%Z -> rest = EmptyString)
  end.

(** [text] shows [tenths] tenths with one decimal place and a percent
    sign: the numeral of the whole part, a point, one digit, [%]. *)
Definition oneDecimalPercent (tenths : Z) (text : string) : Prop :=
  exists (whole : string) (d : ascii),
    text = whole ++ "." ++ String d EmptyString ++ "%"
    /\ numeral whole (tenths / 10)
    /\ digit_value d = Some (tenths mod 10)%Z.

(* ------------------------------------------------------------------ *)
(** ** Resources, tool registrations and the static routes             *)
(* ------------------------------------------------------------------ *)

(** The one content item that a resource read returns. *)
Record ResourceContent : Type := {
  content_uri : string;
  content_mimeType : string;
  content_text : string
}.

Section Surfaces.

Context {platform : Platform}.
Variable cfg : Config.
Variable gh : Upstream.

Definition resourceReadmeRequest (owner repo : string) : Request :=
{| url := GITHUB_API ++ "/repos/" ++ owner ++ "/" ++ repo ++ "/readme";
   request_headers :=
     define_own (headers cfg) "Accept" "application/vnd.github.v3.raw" |}.

(** The [repo-readme] resource template, for the variables [owner] and
  [repo] matched from the URI [href].  There is no [try] around the
  request here. *)
Definition readmeResource (href owner repo : string) : Result ResourceContent :=
readmeRes <- raw_endpoint gh (resourceReadmeRequest owner repo) ;;
text <- (if ok readmeRes then body readmeRes else Ok "(No README found)") ;;
Ok {| content_uri := href; content_mimeType := "text/markdown";
      content_text := text |}.

(** The [profile] resource. *)
Definition profileResource : Result ResourceContent :=
text <- handleGetProfile cfg gh ;;
Ok {| content_uri := "github://" ++ GITHUB_USERNAME cfg ++ "/profile";
      content_mimeType := "application/json";
      content_text := text |}.

(** The callbacks given to [server.registerTool], by tool name, in
  registration order. *)
Definition registeredTools : list (string * (Json -> Result Json)) :=
[ ("list_repos",
   fun args => text <- handleListRepos cfg gh args ;;
               Ok (JObj [("content", JArr [JObj [("type", JStr "text");
                                                 ("text", JStr text)]])]));
  ("get_repo_details",
   fun args => text <- handleGetRepoDetails cfg gh args ;;
               Ok (JObj [("content", JArr [JObj [("type", JStr "text");
                                                 ("text", JStr text)]])]));
  ("get_languages",
   fun args => text <- handleGetLanguages cfg gh args ;;
               Ok (JObj [("content", JArr [JObj [("type", JStr "text");
                                                 ("text", JStr text)]])]));
  ("get_profile",
   fun _ => text <- handleGetProfile cfg gh ;;
            Ok (JObj [("content", JArr [JObj [("type", JStr "text");
                                              ("text", JStr text)]])]));
  ("search_repos",
   fun args => text <- handleSearchRepos cfg gh args ;;
               Ok (JObj [("content", JArr [JObj [("type", JStr "text");
                                                 ("text", JStr text)]])]));
  ("get_tech_stack_summary",
   fun _ => text <- handleGetTechStackSummary cfg gh ;;
            Ok (JObj [("content", JArr [JObj [("type", JStr "text");
                                              ("text", JStr text)]])])) ].

(** [GET /tools], [GET /health] and [GET /]. *)
Definition toolsRoute : HttpResponse :=
{| http_status := 200;
   http_json := JObj [("tools", JArr (map JStr (Object_keys TOOL_REGISTRY)))] |}.

Definition healthRoute : HttpResponse :=
{| http_status := 200;
   http_json :=
     JObj [ ("status", JStr "ok");
            ("username", JStr (GITHUB_USERNAME cfg));
            ("tools", JNum (Z.of_nat (length (Object_keys TOOL_REGISTRY)))) ] |}.

Definition rootRoute : HttpResponse :=
{| http_status := 200;
   http_json :=
     JObj [ ("name", JStr "github-portfolio-mcp-server");
            ("status", JStr "ok");
            ("endpoints", JArr [JStr "/health"; JStr "/tools"; JStr "/call/:tool"]) ] |}.

End Surfaces.

(** *** Vocabulary for the statements about these surfaces *)

(** The path of the first request a tool issues. *)
Definition toolPath (cfg : Config) (t : Tool) (args : Json) : string :=
  match t with
  | list_repos => listReposPath cfg
  | get_repo_details => repoPath cfg args
  | get_languages => languagesPath cfg args
  | get_profile => "/users/" ++ GITHUB_USERNAME cfg
  | search_repos | get_tech_stack_summary => allReposPath cfg
  end.

(** The outcome of that request as [ghFetch] sees it, the payload
    forgotten. *)
Definition forget {T : Type} (r : Result T) : Result unit :=
  match r with
  | Ok _ => Ok tt
  | Throw e => Throw e
  end.

Definition firstFetch (cfg : Config) (gh : Upstream) (t : Tool) (args : Json)
  : Result unit :=
  match t with
  | list_repos | search_repos | get_tech_stack_summary =>
      forget (ghFetch cfg (repos_endpoint gh) (toolPath cfg t args))
  | get_repo_details => forget (ghFetch cfg (repo_endpoint gh) (toolPath cfg t args))
  | get_languages => forget (ghFetch cfg (languages_endpoint gh) (toolPath cfg t args))
  | get_profile => forget (ghFetch cfg (user_endpoint gh) (toolPath cfg t args))
  end.

(** The status line of the answer to that request. *)
Definition statusLine {T : Type} (r : Result (Response T)) : Result (bool * Z * string) :=
  match r with
  | Ok res => Ok (ok res, status res, statusText res)
  | Throw e => Throw e
  end.

Definition firstStatus (cfg : Config) (gh : Upstream) (t : Tool) (args : Json)
  : Result (bool * Z * string) :=
  match t with
  | list_repos | search_repos | get_tech_stack_summary =>
      statusLine (repos_endpoint gh (apiRequest cfg (toolPath cfg t args)))
  | get_repo_details =>
      statusLine (repo_endpoint gh (apiRequest cfg (toolPath cfg t args)))
  | get_languages =>
      statusLine (languages_endpoint gh (apiRequest cfg (toolPath cfg t args)))
  | get_profile =>
      statusLine (user_endpoint gh (apiRequest cfg (toolPath cfg t args)))
  end.

(** The arguments satisfy the tool's declared schema as far as the
    handler depends on it: [get_repo_details] and [get_languages] are
    given a string [repo_name], [search_repos] a string [query]. *)
Definition wellTyped (t : Tool) (args : Json) : Prop :=
  match t with
  | get_repo_details | get_languages =>
      exists repo_name, field args "repo_name" = Some (JStr repo_name)
  | search_repos => exists q, field args "query" = Some (JStr q)
  | list_repos | get_profile | get_tech_stack_summary => True
  end.

(** A snapshot whose every endpoint refuses with 503. *)
Definition snapshot_down : Upstream :=
  {| repos_endpoint := refuse 503 "Service Unavailable";
     repo_endpoint := refuse 503 "Service Unavailable";
     languages_endpoint := refuse 503 "Service Unavailable";
     user_endpoint := refuse 503 "Service Unavailable";
     raw_endpoint := refuse 503 "Service Unavailable" |}.

(** A snapshot in which "zeta" has a README. *)
Definition snapshot_with_readme : Upstream :=
  {| repos_endpoint := answer sample_repos;
     repo_endpoint := answer (sample_repo "zeta" (Some "Go") 3 ["cli"] false);
     languages_endpoint := answer [("Go", 300%N)];
     user_endpoint := answer sample_user;
     raw_endpoint := answer "# zeta" |}.

(* ================================================================== *)
(** * Properties                                                        *)
(* ================================================================== *)

(** ** Worked examples *)

Example stringify_demo :
  JSON_stringify (JArr [JObj [("name", JStr "a"); ("stars", JNum 12); ("topics", JArr [])]])
  = "[" ++ nl ++ "  {" ++ nl ++ "    " ++ dquote ++ "name" ++ dquote ++ ": " ++ dquote ++ "a" ++ dquote ++ ","
        ++ nl ++ "    " ++ dquote ++ "stars" ++ dquote ++ ": 12,"
        ++ nl ++ "    " ++ dquote ++ "topics" ++ dquote ++ ": []"
        ++ nl ++ "  }" ++ nl ++ "]".
Proof. reflexivity. Qed.

Example toFixed1_demo :
  toFixed1 (Number_mul (Number_div 1 3) 100) = "33.3"
  /\ toFixed1 (Number_mul (Number_div 2 3) 100) = "66.7"
  /\ toFixed1 (Number_mul (Number_div 1 2000) 100) = "0.1"
  /\ toFixed1 (Number_mul (Number_div 0 7) 100) = "0.0"
  /\ toFixed1 (Number_mul (Number_div 7 7) 100) = "100.0".
Proof. vm_compute. repeat split. Qed.

Example main_demo :
  main (env_of []) = StdioActive
  /\ main (env_of [("PORT", "8080")]) = HttpActive 8080
  /\ main (env_of [("RENDER", "true")]) = HttpActive 3000
  /\ main (env_of [("PORT", " 0x1f")]) = StdioActive.
Proof. repeat split. Qed.

(** A topic named like a property of [Object.prototype] is not counted:
    the inherited value is read, [+ 1] concatenates, and the counter is a
    string from then on; [__proto__] leaves no entry at all. *)
Example inherited_names_are_not_counted :
  techStackSummary
    [sample_repo "x" (Some "JavaScript") 0 ["constructor"; "__proto__"; "constructor"] false]
  = {| total_original_repos := 1;
       summary_languages := [("JavaScript", CNum 1)];
       summary_topics := [("constructor", CStr "function Object() { [native code] }11")] |}.
Proof. reflexivity. Qed.

Example tech_stack_scenario :
  techStackSummary sample_repos
  = {| total_original_repos := 2;
       summary_languages := [("Go", CNum 1); ("Rust", CNum 1)];
       summary_topics := [("cli", CNum 1)] |}.
Proof. reflexivity. Qed.

Example list_repos_demo :
  map name (listedRepos (platform := ascii_platform) args_by_name sample_repos)
  = ["alpha"; "zeta"]
  /\ map name (listedRepos (platform := ascii_platform)
                           (JObj [("include_forks", JBool true); ("sort", JStr "stars")])
                           sample_repos)
     = ["beta"; "alpha"; "zeta"].
Proof. split; reflexivity. Qed.

(** ** Facts about [Array.prototype.sort] *)

Section SortFacts.

Variable A : Type.
Variable cmp : A -> A -> Z.

Lemma insert_sorted_perm (x : A) (l : list A) :
  Permutation (insert_sorted cmp x l) (x :: l).
Proof.
  induction l as [|y l IH]; simpl.
  - apply Permutation_refl.
  - destruct (cmp x y <=? 0)%Z.
    + apply Permutation_refl.
    + eapply perm_trans; [apply perm_skip, IH | apply perm_swap].
Qed.

Lemma Array_sort_perm (l : list A) : Permutation (Array_sort cmp l) l.
Proof.
  induction l as [|x l IH]; simpl.
  - constructor.
  - eapply perm_trans; [apply insert_sorted_perm | apply perm_skip, IH].
Qed.

Lemma Array_sort_In (l : list A) (x : A) : In x (Array_sort cmp l) <-> In x l.
Proof.
  split; apply Permutation_in;
    [apply Array_sort_perm | apply Permutation_sym, Array_sort_perm].
Qed.

Lemma Array_sort_length (l : list A) : length (Array_sort cmp l) = length l.
Proof. apply Permutation_length, Array_sort_perm. Qed.

(** Elements for which [p] holds never overtake each other when the
    comparator does not rank one of them strictly after another. *)
Lemma insert_sorted_filter_in (p : A -> bool) (x : A) (l : list A) :
  p x = true ->
  (forall y, In y l -> p y = true -> (cmp x y <= 0)%Z) ->
  filter p (insert_sorted cmp x l) = x :: filter p l.
Proof.
  intros Hx. induction l as [|y l IH]; intros Hle; simpl.
  - now rewrite Hx.
  - destruct (cmp x y <=? 0)%Z eqn:E; simpl.
    + now rewrite Hx.
    + destruct (p y) eqn:Hy.
      * specialize (Hle y (or_introl eq_refl) Hy).
        apply Z.leb_gt in E. lia.
      * apply IH. intros z Hz. apply Hle. now right.
Qed.

Lemma insert_sorted_filter_out (p : A -> bool) (x : A) (l : list A) :
  p x = false -> filter p (insert_sorted cmp x l) = filter p l.
Proof.
  intros Hx. induction l as [|y l IH]; simpl.
  - now rewrite Hx.
  - destruct (cmp x y <=? 0)%Z; simpl.
    + now rewrite Hx.
    + now rewrite IH.
Qed.

Lemma Array_sort_stable (p : A -> bool) (l : list A) :
  (forall x y, In x l -> In y l -> p x = true -> p y = true -> (cmp x y <= 0)%Z) ->
  filter p (Array_sort cmp l) = filter p l.
Proof.
  induction l as [|x l IH]; intros Hle; simpl; [reflexivity|].
  assert (IH' : filter p (Array_sort cmp l) = filter p l).
  { apply IH. intros a b Ha Hb. apply Hle; now right. }
  destruct (p x) eqn:Hx.
  - rewrite insert_sorted_filter_in; [now rewrite IH' | assumption |].
    intros y Hy Hpy.
    apply Hle; [now left | right | | ]; try assumption.
    now apply (Permutation_in _ (Array_sort_perm l)).
  - now rewrite insert_sorted_filter_out, IH'.
Qed.

(** Ordering needs the comparator to be consistent on the elements
    being sorted, which [P] singles out. *)
Variable P : A -> Prop.
Hypothesis cmp_total' :
  forall a b, P a -> P b -> (0 < cmp a b)%Z -> (cmp b a <= 0)%Z.
Hypothesis cmp_trans' :
  forall a b c, P a -> P b -> P c ->
                (cmp a b <= 0)%Z -> (cmp b c <= 0)%Z -> (cmp a c <= 0)%Z.

Lemma insert_sorted_ordered (x : A) (l : list A) :
  P x -> Forall P l ->
  StronglySorted (fun a b => (cmp a b <= 0)%Z) l ->
  StronglySorted (fun a b => (cmp a b <= 0)%Z) (insert_sorted cmp x l).
Proof.
  intros Px HP Hsorted. revert HP.
  induction Hsorted as [|y l Hs IH Hall]; intros HP; simpl.
  - repeat constructor.
  - inversion HP as [|? ? Py HPl]; subst.
    destruct (cmp x y <=? 0)%Z eqn:E.
    + apply Z.leb_le in E.
      constructor; [constructor; assumption|].
      constructor; [assumption|].
      apply Forall_forall. intros z Hz.
      rewrite Forall_forall in Hall, HPl.
      apply cmp_trans' with y; auto.
    + apply Z.leb_gt in E.
      constructor; [now apply IH|].
      apply Forall_forall. intros z Hz.
      apply (Permutation_in _ (insert_sorted_perm x l)) in Hz.
      destruct Hz as [<-|Hz].
      * now apply cmp_total'.
      * rewrite Forall_forall in Hall. now apply Hall.
Qed.

Lemma Array_sort_ordered (l : list A) :
  Forall P l -> StronglySorted (fun a b => (cmp a b <= 0)%Z) (Array_sort cmp l).
Proof.
  induction 1 as [|x l Px HP IH]; simpl.
  - constructor.
  - apply insert_sorted_ordered; auto.
    apply Forall_forall. intros z Hz.
    apply (Permutation_in _ (Array_sort_perm l)) in Hz.
    rewrite Forall_forall in HP. now apply HP.
Qed.

End SortFacts.

Lemma StronglySorted_weaken (A : Type) (R S : A -> A -> Prop) (l : list A) :
  (forall a b, R a b -> S a b) -> StronglySorted R l -> StronglySorted S l.
Proof.
  intros HRS. induction 1 as [|x l Hs IH Hall]; constructor.
  - exact IH.
  - eapply Forall_impl; [|exact Hall]. intros b. apply HRS.
Qed.

(** ** [list_repos] *)

Lemma handleListRepos_ok {platform : Platform} cfg gh args repos :
  ghFetch cfg (repos_endpoint gh) (listReposPath cfg) = Ok repos ->
  handleListRepos cfg gh args
  = Ok (JSON_stringify (JArr (map repoSummary (listedRepos args repos)))).
Proof.
  unfold handleListRepos, listReposPath. intros ->. reflexivity.
Qed.

Lemma listedRepos_In {platform : Platform} args repos r :
  In r (listedRepos args repos) <->
  In r (if truthy (field args "include_forks") then repos else withoutForks repos).
Proof.
  unfold listedRepos, withoutForks.
  destruct (is_string (field args "sort") "stars");
    [apply Array_sort_In|].
  destruct (is_string (field args "sort") "name");
    [apply Array_sort_In|].
  reflexivity.
Qed.

(** C1. With a falsy [include_forks] every listed repository is an
    original, and for the same upstream list and the same [sort] the
    names listed with [include_forks] set include all names listed
    without it. *)
Theorem list_repos_fork_filter :
  forall (platform : Platform) (cfg : Config) (gh : Upstream) (repos : list GHRepo),
    ghFetch cfg (repos_endpoint gh) (listReposPath cfg) = Ok repos ->
    (forall args,
        truthy (field args "include_forks") = false ->
        handleListRepos cfg gh args
        = Ok (JSON_stringify (JArr (map repoSummary (listedRepos args repos))))
        /\ Forall (fun r => fork r = false) (listedRepos args repos))
    /\ (forall args_without args_with,
           truthy (field args_without "include_forks") = false ->
           truthy (field args_with "include_forks") = true ->
           field args_with "sort" = field args_without "sort" ->
           handleListRepos cfg gh args_with
           = Ok (JSON_stringify (JArr (map repoSummary (listedRepos args_with repos))))
           /\ incl (map name (listedRepos args_without repos))
                   (map name (listedRepos args_with repos))).
Proof.
  intros platform cfg gh repos Hfetch. split.
  - intros args Hno. split; [now apply handleListRepos_ok|].
    apply Forall_forall. intros r Hr.
    apply listedRepos_In in Hr. rewrite Hno in Hr.
    apply filter_In in Hr. destruct Hr as [_ Hr].
    now apply negb_true_iff in Hr.
  - intros a0 a1 H0 H1 _. split; [now apply handleListRepos_ok|].
    intros n Hn. apply in_map_iff in Hn. destruct Hn as [r [<- Hr]].
    apply in_map. apply listedRepos_In. rewrite H1.
    apply listedRepos_In in Hr. rewrite H0 in Hr.
    now apply filter_In in Hr.
Qed.

Lemma list_repos_fork_filter_witness :
  Forall (fun r => fork r = false)
         (listedRepos (platform := ascii_platform) args_default sample_repos)
  /\ incl (map name (listedRepos (platform := ascii_platform) args_default sample_repos))
          (map name (listedRepos (platform := ascii_platform) args_with_forks sample_repos)).
Proof.
  destruct (@list_repos_fork_filter ascii_platform sample_config
              (snapshot sample_repos) sample_repos eq_refl) as [Hno Hsup].
  split.
  - exact (proj2 (Hno args_default eq_refl)).
  - exact (proj2 (Hsup args_default args_with_forks eq_refl eq_refl eq_refl)).
Defined.

(** C2. [sort = "name"] lists the repositories in non-decreasing
    [localeCompare] order of their names, [sort = "stars"] in
    non-increasing order of stars, and any other [sort] (the default
    [updated] among them) lists exactly what the fork filter kept, in
    upstream order. *)
Theorem list_repos_order :
  forall (platform : Platform) (cfg : Config) (gh : Upstream) (repos : list GHRepo)
         (args : Json),
    Consistent localeCompare ->
    ghFetch cfg (repos_endpoint gh) (listReposPath cfg) = Ok repos ->
    handleListRepos cfg gh args
    = Ok (JSON_stringify (JArr (map repoSummary (listedRepos args repos))))
    /\ (is_string (field args "sort") "name" = true ->
        StronglySorted (fun a b => (localeCompare (name a) (name b) <= 0)%Z)
                       (listedRepos args repos))
    /\ (is_string (field args "sort") "stars" = true ->
        StronglySorted (fun a b => (stargazers_count b <= stargazers_count a)%Z)
                       (listedRepos args repos))
    /\ (is_string (field args "sort") "stars" = false ->
        is_string (field args "sort") "name" = false ->
        listedRepos args repos
        = if truthy (field args "include_forks") then repos else withoutForks repos).
Proof.
  intros platform cfg gh repos args [Htot Htr] Hfetch.
  split; [now apply handleListRepos_ok|].
  unfold listedRepos, withoutForks.
  destruct (is_string (field args "sort") "stars") eqn:Estars.
  - assert (Hstars :
      StronglySorted (fun a b => (stargazers_count b <= stargazers_count a)%Z)
        (Array_sort (fun a b => (stargazers_count b - stargazers_count a)%Z)
           (if truthy (field args "include_forks") then repos
            else filter (fun r => negb (fork r)) repos))).
    { apply StronglySorted_weaken with
        (R := fun a b => (stargazers_count b - stargazers_count a <= 0)%Z).
      - intros a b H. lia.
      - apply Array_sort_ordered with (P := fun _ => True);
          [intros; lia | intros; lia | now apply Forall_forall]. }
    destruct (Bool.bool_dec
                (is_string (field args "sort") "name") true) as [En|En].
    + (* both tests cannot succeed *)
      exfalso. unfold is_string in *.
      destruct (field args "sort") as [[]|]; try discriminate.
      apply String.eqb_eq in Estars, En. congruence.
    + apply not_true_is_false in En. rewrite En.
      split; [discriminate|]. split; [intros _; exact Hstars | discriminate].
  - destruct (is_string (field args "sort") "name") eqn:Ename.
    + split; [|split; discriminate].
      intros _. apply Array_sort_ordered with (P := fun _ => True).
      * intros a b _ _. apply Htot.
      * intros a b c _ _ _. apply Htr.
      * now apply Forall_forall.
    + split; [discriminate|]. split; [discriminate|]. reflexivity.
Qed.

Lemma codeunit_compare_consistent : Consistent codeunit_compare.
Proof.
  unfold codeunit_compare. split.
  - intros a b H. rewrite String.compare_antisym.
    destruct (String.compare a b); simpl in *; lia.
  - intros a b c Hab Hbc.
    destruct (String.compare a b) eqn:Eab; try lia.
    + apply String.compare_eq_iff in Eab. now subst.
    + destruct (String.compare b c) eqn:Ebc; try lia.
      * apply String.compare_eq_iff in Ebc. subst. now rewrite Eab.
      * apply String_as_OT.cmp_lt in Eab, Ebc.
        pose proof (@String_as_OT.lt_trans a b c Eab Ebc) as Hac.
        apply String_as_OT.cmp_lt in Hac.
        unfold String_as_OT.cmp in Hac. rewrite Hac. lia.
Qed.

Lemma list_repos_order_witness :
  StronglySorted (fun a b => (codeunit_compare (name a) (name b) <= 0)%Z)
                 (listedRepos (platform := ascii_platform) args_by_name sample_repos).
Proof.
  exact (proj1 (proj2 (@list_repos_order ascii_platform sample_config
                         (snapshot sample_repos) sample_repos args_by_name
                         codeunit_compare_consistent eq_refl))
               eq_refl).
Defined.

(** ** Facts about objects used as dictionaries *)

Section DictionaryFacts.

Variable V : Type.

Lemma assoc_map_key (g : string -> V) (l : list string) (k : string) :
  assoc k (map (fun k' => (k', g k')) l) = if in_dec string_dec k l then Some (g k) else None.
Proof.
  induction l as [|a l IH]; simpl; [reflexivity|].
  destruct (String.eqb_spec a k) as [->|Hne].
  - destruct (string_dec k k); [|congruence].
    destruct (in_dec string_dec k l); reflexivity.
  - rewrite IH. destruct (string_dec a k); [congruence|].
    destruct (in_dec string_dec k l); reflexivity.
Qed.

Lemma define_own_map_in (g : string -> V) (l : list string) (k : string) (v : V) :
  NoDup l -> In k l ->
  define_own (map (fun k' => (k', g k')) l) k v
  = map (fun k' => (k', if k' =? k then v else g k')) l.
Proof.
  induction 1 as [|a l Hnotin Hnd IH]; intros Hin; [contradiction|]. simpl.
  destruct (String.eqb_spec a k) as [->|Hne].
  - f_equal. apply map_ext_in. intros b Hb.
    destruct (String.eqb_spec b k); [subst; contradiction | reflexivity].
  - f_equal. apply IH. destruct Hin; [contradiction | assumption].
Qed.

Lemma define_own_map_fresh (g : string -> V) (l : list string) (k : string) (v : V) :
  ~ In k l ->
  define_own (map (fun k' => (k', g k')) l) k v
  = (map (fun k' => (k', g k')) l ++ [(k, v)])%list.
Proof.
  induction l as [|a l IH]; intros Hnotin; simpl; [reflexivity|].
  destruct (String.eqb_spec a k) as [->|Hne].
  - exfalso. apply Hnotin. now left.
  - f_equal. apply IH. intros H. apply Hnotin. now right.
Qed.

Lemma filter_split_perm (A : Type) (p : A -> bool) (l : list A) :
  Permutation (filter p l ++ filter (fun x => negb (p x)) l)%list l.
Proof.
  induction l as [|x l IH]; simpl; [constructor|].
  destruct (p x); simpl.
  - now constructor.
  - eapply perm_trans; [apply Permutation_sym, Permutation_middle|].
    now constructor.
Qed.

Lemma Object_entries_perm (o : JsObject V) : Permutation (Object_entries o) o.
Proof.
  unfold Object_entries.
  eapply perm_trans; [|apply (filter_split_perm (fun kv => is_array_index (fst kv)))].
  apply Permutation_app_tail, Array_sort_perm.
Qed.

Lemma Array_sort_map (A B : Type) (f : A -> B) (cmp : B -> B -> Z) (l : list A) :
  map f (Array_sort (fun a b => cmp (f a) (f b)) l) = Array_sort cmp (map f l).
Proof.
  induction l as [|x l IH]; simpl; [reflexivity|].
  rewrite <- IH. generalize (Array_sort (fun a b => cmp (f a) (f b)) l).
  intros s. induction s as [|y s IHs]; simpl; [reflexivity|].
  destruct (cmp (f x) (f y) <=? 0)%Z; simpl; [reflexivity | now rewrite IHs].
Qed.

Lemma filter_map_fst (p : string -> bool) (o : JsObject V) :
  map fst (filter (fun kv => p (fst kv)) o) = filter p (map fst o).
Proof.
  induction o as [|[k v] o IH]; simpl; [reflexivity|].
  destruct (p k); simpl; now rewrite IH.
Qed.

Lemma Object_keys_order (o : JsObject V) :
  Object_keys o
  = (Array_sort (fun a b => (index_of a - index_of b)%Z)
                (filter is_array_index (map fst o))
     ++ filter (fun k => negb (is_array_index k)) (map fst o))%list.
Proof.
  unfold Object_keys, Object_entries.
  rewrite map_app.
  rewrite (Array_sort_map fst (fun a b => (index_of a - index_of b)%Z)).
  rewrite (filter_map_fst is_array_index).
  now rewrite (filter_map_fst (fun k => negb (is_array_index k))).
Qed.

End DictionaryFacts.

(** ** Facts about [first_seen] and [occurrences] *)

Lemma existsb_eqb_In (k : string) (l : list string) :
  existsb (String.eqb k) l = true <-> In k l.
Proof.
  rewrite existsb_exists. split.
  - intros [x [Hx Heq]]. apply String.eqb_eq in Heq. now subst.
  - intros H. exists k. split; [assumption | apply String.eqb_refl].
Qed.

Lemma first_seen_snoc (keys : list string) (k : string) :
  first_seen (keys ++ [k])
  = if existsb (String.eqb k) (first_seen keys) then first_seen keys
    else (first_seen keys ++ [k])%list.
Proof. unfold first_seen. now rewrite fold_left_app. Qed.

Lemma first_seen_In (keys : list string) (k : string) :
  In k (first_seen keys) <-> In k keys.
Proof.
  induction keys as [|a keys IH] using rev_ind.
  - reflexivity.
  - rewrite first_seen_snoc, in_app_iff. simpl.
    destruct (existsb (String.eqb a) (first_seen keys)) eqn:E.
    + apply existsb_eqb_In in E. rewrite IH in *.
      intuition (subst; auto).
    + rewrite in_app_iff, IH. simpl. reflexivity.
Qed.

Lemma first_seen_NoDup (keys : list string) : NoDup (first_seen keys).
Proof.
  induction keys as [|a keys IH] using rev_ind.
  - constructor.
  - rewrite first_seen_snoc.
    destruct (existsb (String.eqb a) (first_seen keys)) eqn:E; [assumption|].
    apply NoDup_app; [assumption | repeat constructor; auto | ].
    intros x Hx [<-|[]].
    apply existsb_eqb_In in Hx. congruence.
Qed.

Lemma occurrences_snoc (keys : list string) (k a : string) :
  occurrences a (keys ++ [k])
  = (occurrences a keys + (if (a =? k)%string then 1 else 0))%Z.
Proof.
  unfold occurrences. rewrite count_occ_app. simpl.
  destruct (string_dec k a) as [->|Hne].
  - rewrite String.eqb_refl. lia.
  - destruct (String.eqb_spec a k); [congruence | lia].
Qed.

Lemma occurrences_pos (keys : list string) (k : string) :
  In k keys -> (1 <= occurrences k keys)%Z.
Proof.
  intros H. unfold occurrences.
  apply (count_occ_In string_dec) in H. lia.
Qed.

Lemma occurrences_absent (keys : list string) (k : string) :
  ~ In k keys -> occurrences k keys = 0%Z.
Proof.
  intros H. unfold occurrences.
  apply (count_occ_not_In string_dec) in H. now rewrite H.
Qed.

(** ** The tally of the tech-stack summary *)

Lemma bump_tallied (keys : list string) (k : string) :
  plain k -> bump (tallied keys) k = tallied (keys ++ [k]).
Proof.
  intros Hplain. unfold bump, Set_primitive, Get, tallied.
  rewrite assoc_map_key, first_seen_snoc.
  destruct (in_dec string_dec k (first_seen keys)) as [Hin|Hnotin].
  - simpl. rewrite (define_own_map_in _ _ (first_seen_NoDup keys) Hin).
    rewrite (proj2 (existsb_eqb_In k (first_seen keys)) Hin).
    apply map_ext. intros a. rewrite occurrences_snoc.
    destruct (String.eqb_spec a k) as [->|_]; [reflexivity|].
    now rewrite Z.add_0_r.
  - unfold plain in Hplain. rewrite Hplain. simpl.
    rewrite (define_own_map_fresh _ _ Hnotin).
    destruct (existsb (String.eqb k) (first_seen keys)) eqn:E;
      [apply existsb_eqb_In in E; contradiction|].
    rewrite map_app. simpl. f_equal.
    + apply map_ext_in. intros a Ha. rewrite occurrences_snoc.
      destruct (String.eqb_spec a k) as [->|_]; [contradiction|].
      now rewrite Z.add_0_r.
    + rewrite occurrences_snoc, String.eqb_refl.
      rewrite occurrences_absent; [reflexivity|].
      intros H. apply Hnotin. now apply first_seen_In.
Qed.

Lemma tally_closed_form (keys : list string) :
  Forall plain keys -> fold_left bump keys [] = tallied keys.
Proof.
  induction keys as [|k keys IH] using rev_ind; intros Hplain.
  - reflexivity.
  - apply Forall_app in Hplain. destruct Hplain as [Hkeys Hk].
    rewrite fold_left_app. simpl. rewrite (IH Hkeys).
    apply bump_tallied. now inversion Hk.
Qed.

Lemma count_repo_fold (originals : list GHRepo) (L T : JsObject Count) :
  fold_left count_repo originals (L, T)
  = (fold_left bump (languageKeys originals) L,
     fold_left bump (topicKeys originals) T).
Proof.
  revert L T. induction originals as [|r originals IH]; intros L T; simpl.
  - reflexivity.
  - rewrite IH, !fold_left_app. f_equal. f_equal.
    destruct (language r) as [l|]; [|reflexivity].
    destruct (l =? ""); reflexivity.
Qed.

Lemma techStackSummary_unfold (repos : list GHRepo) :
  techStackSummary repos
  = {| total_original_repos := Z.of_nat (length (withoutForks repos));
       summary_languages :=
         ranked (fold_left bump (languageKeys (withoutForks repos)) []);
       summary_topics :=
         ranked (fold_left bump (topicKeys (withoutForks repos)) []) |}.
Proof.
  unfold techStackSummary, withoutForks. now rewrite count_repo_fold.
Qed.

Lemma ranked_perm (counts : JsObject Count) : Permutation (ranked counts) counts.
Proof.
  unfold ranked. eapply perm_trans; [apply Array_sort_perm | apply Object_entries_perm].
Qed.

Lemma tallied_In (keys : list string) (k : string) (c : Count) :
  In (k, c) (tallied keys) <-> In k keys /\ c = CNum (occurrences k keys).
Proof.
  unfold tallied. rewrite in_map_iff. split.
  - intros [a [Heq Ha]]. inversion Heq; subst. split; [|reflexivity].
    now apply first_seen_In.
  - intros [Hk ->]. exists k. split; [reflexivity | now apply first_seen_In].
Qed.

Lemma ranked_counted (keys : list string) :
  counted_from keys (ranked (tallied keys)) /\ positive_counts (ranked (tallied keys)).
Proof.
  split.
  - intros k c H. apply (Permutation_in _ (ranked_perm _)) in H.
    now apply tallied_In in H.
  - apply Forall_forall. intros [k c] H.
    apply (Permutation_in _ (ranked_perm _)) in H.
    apply tallied_In in H. destruct H as [Hk ->].
    eexists. split; [reflexivity | now apply occurrences_pos].
Qed.

Lemma zsum_perm (l l' : list Z) : Permutation l l' -> zsum l = zsum l'.
Proof.
  induction 1; simpl; lia.
Qed.

Lemma counts_total_numeric (l : list (string * Count)) :
  Forall numeric l -> counts_total l = Some (zsum (map count_value l)).
Proof.
  induction 1 as [|[k c] l [n Hn] Hl IH]; simpl; [reflexivity|].
  simpl in Hn. subst c. rewrite IH. unfold count_value. reflexivity.
Qed.

Lemma indicator_sum (l : list string) (k : string) :
  NoDup l ->
  zsum (map (fun a => if (a =? k)%string then 1%Z else 0%Z) l)
  = if in_dec string_dec k l then 1%Z else 0%Z.
Proof.
  induction 1 as [|a l Hnotin Hnd IH]; simpl; [reflexivity|].
  rewrite IH.
  destruct (String.eqb_spec a k) as [->|Hne].
  - destruct (string_dec k k); [|congruence].
    destruct (in_dec string_dec k l); [contradiction | reflexivity].
  - destruct (string_dec a k); [congruence|].
    destruct (in_dec string_dec k l); reflexivity.
Qed.

Lemma zsum_map_add (A : Type) (f g : A -> Z) (l : list A) :
  zsum (map (fun a => (f a + g a)%Z) l) = (zsum (map f l) + zsum (map g l))%Z.
Proof.
  induction l as [|a l IH]; simpl; lia.
Qed.

Lemma zsum_app (l l' : list Z) : zsum (l ++ l') = (zsum l + zsum l')%Z.
Proof.
  induction l as [|a l IH]; simpl; lia.
Qed.

Lemma tallied_total (keys : list string) :
  zsum (map count_value (tallied keys)) = Z.of_nat (length keys).
Proof.
  unfold tallied. rewrite map_map. unfold count_value. simpl.
  induction keys as [|k keys IH] using rev_ind; [reflexivity|].
  rewrite length_app, Nat2Z.inj_add. simpl. rewrite <- IH.
  rewrite first_seen_snoc.
  destruct (existsb (String.eqb k) (first_seen keys)) eqn:E.
  - rewrite (map_ext _ _ (fun a => occurrences_snoc keys k a)).
    rewrite zsum_map_add. f_equal.
    rewrite indicator_sum by apply first_seen_NoDup.
    apply existsb_eqb_In in E.
    destruct (in_dec string_dec k (first_seen keys)); [reflexivity | contradiction].
  - rewrite map_app, zsum_app. simpl.
    rewrite (map_ext _ _ (fun a => occurrences_snoc keys k a)).
    rewrite zsum_map_add.
    rewrite indicator_sum by apply first_seen_NoDup.
    assert (Hnotin : ~ In k (first_seen keys)).
    { intros H. apply existsb_eqb_In in H. congruence. }
    destruct (in_dec string_dec k (first_seen keys)); [contradiction|].
    rewrite occurrences_snoc, String.eqb_refl.
    rewrite (occurrences_absent (k := k) (keys := keys)); [lia|].
    intros H. apply Hnotin. now apply first_seen_In.
Qed.

Lemma tallied_numeric (keys : list string) : Forall numeric (tallied keys).
Proof.
  apply Forall_forall. intros [k c] H. apply tallied_In in H.
  destruct H as [_ ->]. now eexists.
Qed.

Lemma ranked_numeric (counts : JsObject Count) :
  Forall numeric counts -> Forall numeric (ranked counts).
Proof.
  intros H. apply Forall_forall. intros e He.
  apply (Permutation_in _ (ranked_perm counts)) in He.
  rewrite Forall_forall in H. now apply H.
Qed.

Lemma ranked_total (keys : list string) :
  counts_total (ranked (tallied keys)) = Some (Z.of_nat (length keys)).
Proof.
  rewrite counts_total_numeric by apply ranked_numeric, tallied_numeric.
  f_equal. rewrite <- tallied_total.
  apply zsum_perm, Permutation_map, ranked_perm.
Qed.

Lemma StronglySorted_on (A : Type) (P : A -> Prop) (R S : A -> A -> Prop) (l : list A) :
  (forall a b, P a -> P b -> R a b -> S a b) ->
  Forall P l -> StronglySorted R l -> StronglySorted S l.
Proof.
  intros HRS HP Hs. revert HP.
  induction Hs as [|x l Hs IH Hall]; intros HP; constructor.
  - apply IH. now inversion HP.
  - inversion HP as [|? ? Px HPl]; subst.
    rewrite Forall_forall in *. intros b Hb. apply HRS; auto.
Qed.

Lemma ranked_descending (counts : JsObject Count) :
  Forall numeric counts -> descending (ranked counts).
Proof.
  intros Hnum. unfold descending.
  assert (Hentries : Forall numeric (Object_entries counts)).
  { apply Forall_forall. intros e He.
    apply (Permutation_in _ (Object_entries_perm counts)) in He.
    rewrite Forall_forall in Hnum. now apply Hnum. }
  apply StronglySorted_on with
    (P := numeric) (R := fun a b => (by_count_descending a b <= 0)%Z).
  - intros [ka ca] [kb cb] [x Hx] [y Hy]. simpl in *. subst.
    unfold by_count_descending, Count_ge. simpl. lia.
  - now apply ranked_numeric.
  - unfold ranked. apply Array_sort_ordered with (P := numeric).
    + intros [ka ca] [kb cb] [x Hx] [y Hy]. simpl in *. subst.
      unfold by_count_descending. simpl. lia.
    + intros [ka ca] [kb cb] [kc cc] [x Hx] [y Hy] [z Hz]. simpl in *. subst.
      unfold by_count_descending. simpl. lia.
    + exact Hentries.
Qed.

Lemma has_count_tie (c : Count) (x y : string * Count) :
  has_count c x = true -> has_count c y = true -> (by_count_descending x y <= 0)%Z.
Proof.
  unfold has_count, by_count_descending.
  destruct x as [kx [x|x]], y as [ky [y|y]], c as [c|c]; simpl;
    try discriminate; try (intros _ _; lia).
  intros Hx Hy. apply Z.eqb_eq in Hx, Hy. lia.
Qed.

Lemma NoDup_keys_inj (V : Type) (l : list (string * V)) (e e' : string * V) :
  NoDup (map fst l) -> In e l -> In e' l -> fst e = fst e' -> e = e'.
Proof.
  induction l as [|a l IH]; simpl; intros Hnd He He' Hk; [contradiction|].
  inversion Hnd as [|? ? Hnotin Hnd']; subst.
  destruct He as [->|He], He' as [->|He'].
  - reflexivity.
  - exfalso. apply Hnotin. rewrite Hk. now apply in_map.
  - exfalso. apply Hnotin. rewrite <- Hk. now apply in_map.
  - now apply IH.
Qed.

Lemma filter_keys_agree (V : Type) (q : string * V -> bool) (Q : string -> bool)
      (l : list (string * V)) :
  (forall e, In e l -> Q (fst e) = q e) ->
  map fst (filter q l) = filter Q (map fst l).
Proof.
  induction l as [|e l IH]; intros H; simpl; [reflexivity|].
  rewrite (H e (or_introl eq_refl)).
  assert (IH' : map fst (filter q l) = filter Q (map fst l)).
  { apply IH. intros e' He'. apply H. now right. }
  destruct (q e); simpl; now rewrite IH'.
Qed.

Lemma ties_from_stable (entries out : list (string * Count)) :
  NoDup (map fst entries) ->
  Permutation out entries ->
  (forall c, filter (has_count c) out = filter (has_count c) entries) ->
  ties_follow (map fst entries) out.
Proof.
  intros Hnd Hperm Hstable c. rewrite Hstable.
  apply filter_keys_agree. intros e He.
  destruct (has_count c e) eqn:Hc.
  - apply existsb_exists. exists e. split.
    + now apply (Permutation_in _ (Permutation_sym Hperm)).
    + now rewrite String.eqb_refl, Hc.
  - apply not_true_is_false. intros H.
    apply existsb_exists in H. destruct H as [e' [He' H]].
    apply andb_true_iff in H. destruct H as [Hk Hc'].
    apply String.eqb_eq in Hk.
    apply (Permutation_in _ Hperm) in He'.
    assert (e' = e) by (now apply (NoDup_keys_inj Hnd)).
    subst. congruence.
Qed.

Lemma ranked_ties (keys : list string) :
  ties_follow (property_order keys) (ranked (tallied keys)).
Proof.
  assert (Hkeys : map fst (tallied keys) = first_seen keys).
  { unfold tallied. rewrite map_map. simpl. apply map_id. }
  assert (Horder : map fst (Object_entries (tallied keys)) = property_order keys).
  { change (Object_keys (tallied keys) = property_order keys).
    now rewrite Object_keys_order, Hkeys. }
  rewrite <- Horder. apply ties_from_stable.
  - apply (Permutation_NoDup (l := map fst (tallied keys))).
    + apply Permutation_map, Permutation_sym, Object_entries_perm.
    + rewrite Hkeys. apply first_seen_NoDup.
  - apply Array_sort_perm.
  - intros c. apply Array_sort_stable.
    intros x y _ _. apply has_count_tie.
Qed.

Lemma filter_none (A : Type) (p : A -> bool) (l : list A) :
  Forall (fun x => p x = false) l ->
  filter p l = [] /\ filter (fun x => negb (p x)) l = l.
Proof.
  induction 1 as [|x l Hx Hl [IH1 IH2]]; simpl; [now split|].
  rewrite Hx. simpl. now rewrite IH1, IH2.
Qed.

(** Without array-index names, property order is first-seen order. *)
Lemma property_order_without_indices (keys : list string) :
  Forall (fun k => is_array_index k = false) keys ->
  property_order keys = first_seen keys.
Proof.
  intros H. unfold property_order.
  assert (Hfs : Forall (fun k => is_array_index k = false) (first_seen keys)).
  { apply Forall_forall. intros k Hk.
    apply (proj1 (first_seen_In keys k)) in Hk.
    rewrite Forall_forall in H. now apply H. }
  destruct (filter_none Hfs) as [-> ->]. reflexivity.
Qed.

(** ** [get_tech_stack_summary] *)

Lemma handleGetTechStackSummary_ok cfg gh repos :
  ghFetch cfg (repos_endpoint gh) (allReposPath cfg) = Ok repos ->
  handleGetTechStackSummary cfg gh
  = Ok (JSON_stringify (json_of_summary (techStackSummary repos))).
Proof.
  unfold handleGetTechStackSummary, allReposPath. intros ->. reflexivity.
Qed.

Lemma withoutForks_idempotent (repos : list GHRepo) :
  withoutForks (withoutForks repos) = withoutForks repos.
Proof.
  unfold withoutForks. induction repos as [|r repos IH]; simpl; [reflexivity|].
  destruct (fork r) eqn:E; simpl; [assumption|].
  rewrite E. simpl. now rewrite IH.
Qed.

Lemma languageKeys_hasLanguage (repos : list GHRepo) :
  languageKeys (withoutForks (filter hasLanguage repos))
  = languageKeys (withoutForks repos).
Proof.
  unfold languageKeys, withoutForks, hasLanguage.
  induction repos as [|r repos IH]; simpl; [reflexivity|].
  destruct (language r) as [l|] eqn:El; simpl.
  - destruct (fork r); simpl; [assumption|]. now rewrite El, IH.
  - destruct (fork r); simpl; [assumption|]. now rewrite El.
Qed.

Lemma techStackSummary_plain (repos : list GHRepo) :
  Forall plain (languageKeys (withoutForks repos)) ->
  Forall plain (topicKeys (withoutForks repos)) ->
  summary_languages (techStackSummary repos)
  = ranked (tallied (languageKeys (withoutForks repos)))
  /\ summary_topics (techStackSummary repos)
     = ranked (tallied (topicKeys (withoutForks repos))).
Proof.
  intros HL HT. rewrite techStackSummary_unfold. simpl.
  now rewrite !tally_closed_form.
Qed.

(** C3, as amended.  Forks are not counted; repositories without a
    language touch no language counter; every topic listed by an original
    repository adds one to the counter of that topic; no counter is zero;
    both lists are in descending order of count, and entries of equal
    count stand in property order: names that are array indices first, in
    ascending numeric order, then the other names as first seen.  This
    holds when no language or topic bears the name of a property of
    [Object.prototype]. *)
Theorem tech_stack_summary_contract :
  forall (cfg : Config) (gh : Upstream) (repos : list GHRepo),
    ghFetch cfg (repos_endpoint gh) (allReposPath cfg) = Ok repos ->
    Forall plain (languageKeys (withoutForks repos)) ->
    Forall plain (topicKeys (withoutForks repos)) ->
    handleGetTechStackSummary cfg gh
    = Ok (JSON_stringify (json_of_summary (techStackSummary repos)))
    /\ techStackContract property_order repos.
Proof.
  intros cfg gh repos Hfetch HL HT.
  split; [now apply handleGetTechStackSummary_ok|].
  destruct (techStackSummary_plain HL HT) as [EL ET].
  unfold techStackContract. rewrite EL, ET.
  split; [split|].
  - rewrite (techStackSummary_unfold repos), (techStackSummary_unfold (withoutForks repos)).
    now rewrite withoutForks_idempotent.
  - now rewrite techStackSummary_unfold.
  - split.
    { rewrite (techStackSummary_unfold (filter hasLanguage repos)). simpl.
      rewrite languageKeys_hasLanguage. now rewrite tally_closed_form. }
    split; [split; [apply ranked_counted | apply ranked_total]|].
    split; [split; apply ranked_counted|].
    split; [split; apply ranked_descending, tallied_numeric|].
    split; apply ranked_ties.
Qed.

Lemma tech_stack_summary_contract_witness :
  techStackContract property_order sample_repos.
Proof.
  refine (proj2 (@tech_stack_summary_contract sample_config (snapshot sample_repos)
                   sample_repos eq_refl _ _)).
  - repeat constructor.
  - repeat constructor.
Defined.

(** C3 fails as stated: with the topics "puzzle" and "2048" on one
    repository both counters are 1, yet "2048", seen second, is listed
    first. *)
Lemma tech_stack_tie_order_counterexample :
  ~ techStackContract first_seen [repo_2048].
Proof.
  unfold techStackContract. intros (_ & _ & _ & _ & _ & _ & Hties).
  specialize (Hties (CNum 1)). vm_compute in Hties. discriminate.
Qed.

Lemma languageKeys_length (originals : list GHRepo) :
  (length (languageKeys originals) <= length originals)%nat.
Proof.
  unfold languageKeys. induction originals as [|r originals IH]; simpl; [lia|].
  rewrite length_app.
  destruct (language r) as [l|]; [destruct (l =? "")|]; simpl; lia.
Qed.

Lemma topic_occurrences_bound (originals : list GHRepo) (k : string) :
  Forall (fun r => NoDup (topics r)) originals ->
  (occurrences k (topicKeys originals) <= Z.of_nat (length originals))%Z.
Proof.
  unfold occurrences, topicKeys.
  induction 1 as [|r originals Hnd Hall IH]; simpl; [lia|].
  rewrite count_occ_app.
  pose proof (proj1 (NoDup_count_occ string_dec (topics r)) Hnd k). lia.
Qed.

(** C10, as amended.  The language counts add up to at most the number
    of original repositories, and so does every single topic count, when
    no original repository lists a topic twice and no language or topic
    bears the name of a property of [Object.prototype]. *)
Theorem tech_stack_bounds :
  forall (cfg : Config) (gh : Upstream) (repos : list GHRepo),
    ghFetch cfg (repos_endpoint gh) (allReposPath cfg) = Ok repos ->
    Forall plain (languageKeys (withoutForks repos)) ->
    Forall plain (topicKeys (withoutForks repos)) ->
    Forall (fun r => NoDup (topics r)) (withoutForks repos) ->
    handleGetTechStackSummary cfg gh
    = Ok (JSON_stringify (json_of_summary (techStackSummary repos)))
    /\ techStackBounds repos.
Proof.
  intros cfg gh repos Hfetch HL HT Hnd.
  split; [now apply handleGetTechStackSummary_ok|].
  destruct (techStackSummary_plain HL HT) as [EL ET].
  unfold techStackBounds. rewrite EL, ET, techStackSummary_unfold. simpl.
  split.
  - eexists. split; [apply ranked_total|].
    apply Nat2Z.inj_le, languageKeys_length.
  - apply Forall_forall. intros [k c] H.
    apply ranked_counted in H. subst c.
    eexists. split; [reflexivity|]. now apply topic_occurrences_bound.
Qed.

Lemma tech_stack_bounds_witness : techStackBounds sample_repos.
Proof.
  refine (proj2 (@tech_stack_bounds sample_config (snapshot sample_repos)
                   sample_repos eq_refl _ _ _)).
  - repeat constructor.
  - repeat constructor.
  - repeat constructor; simpl; intuition.
Defined.

(** C10 fails as stated: one original repository that lists the topic
    "cli" twice yields the count 2 for it. *)
Lemma tech_stack_bounds_counterexample : ~ techStackBounds [repo_repeated_topic].
Proof.
  unfold techStackBounds. intros [_ Htopics].
  vm_compute in Htopics. inversion Htopics as [|? ? [n [Hn Hle]] _]; subst.
  inversion Hn; subst. apply Hle. reflexivity.
Qed.

(** ** [search_repos] *)

Lemma prefix_spec (q s : string) :
  prefix q s = true <-> exists post, s = q ++ post.
Proof.
  revert s. induction q as [|a q IH]; intros s.
  - destruct s; simpl; split; eauto.
  - destruct s as [|b s]; simpl.
    + split; [discriminate | intros [post H]; discriminate].
    + destruct (ascii_dec a b) as [->|Hne].
      * rewrite IH. split; intros [post H]; exists post.
        -- now rewrite H.
        -- now inversion H.
      * split; [discriminate|]. intros [post H]. inversion H. congruence.
Qed.

Lemma includes_spec (s q : string) : includes s q = true <-> Substring q s.
Proof.
  unfold Substring. induction s as [|c s IH].
  - cbn [includes]. rewrite orb_false_r, prefix_spec. split.
    + intros [post H]. now exists "", post.
    + intros [[|a pre] [post H]]; [now exists post | discriminate].
  - cbn [includes]. rewrite orb_true_iff, prefix_spec, IH. split.
    + intros [[post H]|[pre [post H]]].
      * now exists "", post.
      * exists (String c pre), post. simpl. now rewrite H.
    + intros [[|a pre] [post H]].
      * left. now exists post.
      * right. exists pre, post. now inversion H.
Qed.

Lemma matchesQuery_spec {platform : Platform} (q : string) (r : GHRepo) :
  matchesQuery q r = true <-> Matches q r.
Proof.
  unfold matchesQuery, Matches.
  rewrite !orb_true_iff, includes_spec, existsb_exists.
  split.
  - intros [[H|H]|[t [Ht H]]].
    + now left.
    + right. left. destruct (description r) as [d|]; [|discriminate].
      exists d. split; [reflexivity | now apply includes_spec].
    + right. right. exists t. split; [assumption | now apply includes_spec].
  - intros [H|[[d [Hd H]]|[t [Ht H]]]].
    + left. now left.
    + left. right. rewrite Hd. now apply includes_spec.
    + right. exists t. split; [assumption | now apply includes_spec].
Qed.

(** C4. When the listing succeeds, [search_repos] answers with the
    repositories whose lower-cased name, description or some topic
    contains the lower-cased query, in upstream order and projected to
    name, description, language and url; a repository without description
    can only match by name or topic; and when nothing matches the answer
    is the sentence with the query as given. *)
Theorem search_repos_matches :
  forall (platform : Platform) (cfg : Config) (gh : Upstream)
         (repos : list GHRepo) (args : Json) (query : string),
    ghFetch cfg (repos_endpoint gh) (allReposPath cfg) = Ok repos ->
    field args "query" = Some (JStr query) ->
    let q := toLowerCase query in
    let matches := filter (matchesQuery q) repos in
    (forall r, In r matches <-> In r repos /\ Matches q r)
    /\ (forall r, description r = None ->
                  (Matches q r <->
                   Substring q (toLowerCase (name r))
                   \/ exists t, In t (topics r) /\ Substring q (toLowerCase t)))
    /\ (matches <> [] ->
        handleSearchRepos cfg gh args
        = Ok (JSON_stringify
                (JArr (map (fun r =>
                              JObj [ ("name", JStr (name r));
                                     ("description",
                                      match description r with
                                      | Some d => JStr d
                                      | None => JNull
                                      end);
                                     ("language",
                                      match language r with
                                      | Some l => JStr l
                                      | None => JNull
                                      end);
                                     ("url", JStr (html_url r)) ])
                           matches))))
    /\ ((forall r, In r repos -> ~ Matches q r) ->
        handleSearchRepos cfg gh args
        = Ok ("No repositories matched " ++ dquote ++ query ++ dquote ++ ".")).
Proof.
  intros platform cfg gh repos args query Hfetch Hquery q matches.
  assert (Hrun : handleSearchRepos cfg gh args
                 = Ok (if (0 <? length matches)%nat
                       then JSON_stringify (JArr (map searchHit matches))
                       else noMatchSentence query)).
  { unfold handleSearchRepos. unfold allReposPath in Hfetch.
    rewrite Hfetch. simpl. now rewrite Hquery. }
  split; [|split; [|split]].
  - intros r. unfold matches. rewrite filter_In, matchesQuery_spec. reflexivity.
  - intros r Hnone. unfold Matches. rewrite Hnone. split.
    + intros [H|[[d [Hd _]]|H]]; [now left | discriminate | now right].
    + intros [H|H]; [now left | now right; right].
  - intros Hsome. rewrite Hrun.
    destruct matches; [congruence | reflexivity].
  - intros Hnone. rewrite Hrun.
    destruct matches as [|r rest] eqn:E; [reflexivity|].
    exfalso. assert (Hr : In r (filter (matchesQuery q) repos)).
    { fold matches. rewrite E. now left. }
    apply filter_In in Hr. destruct Hr as [Hin Hm].
    apply (Hnone r Hin). now apply matchesQuery_spec.
Qed.

Lemma search_repos_matches_witness :
  handleSearchRepos (platform := ascii_platform) sample_config
                    (snapshot sample_repos) (args_query "xyz-no-match")
  = Ok ("No repositories matched " ++ dquote ++ "xyz-no-match" ++ dquote ++ ".")
  /\ handleSearchRepos (platform := ascii_platform) sample_config
                       (snapshot sample_repos) (args_query "ALPHA")
     = Ok (JSON_stringify
             (JArr [ JObj [ ("name", JStr "alpha");
                            ("description", JNull);
                            ("language", JStr "Rust");
                            ("url", JStr "https://github.com/bdbrown4/alpha") ] ])).
Proof.
  split.
  - refine (proj2 (proj2 (proj2
              (@search_repos_matches ascii_platform sample_config (snapshot sample_repos)
                 sample_repos (args_query "xyz-no-match") "xyz-no-match"
                 eq_refl eq_refl))) _).
    intros r Hin Hm. apply matchesQuery_spec in Hm.
    simpl in Hin. destruct Hin as [<-|[<-|[<-|[]]]]; vm_compute in Hm; discriminate.
  - refine (proj1 (proj2 (proj2
              (@search_repos_matches ascii_platform sample_config (snapshot sample_repos)
                 sample_repos (args_query "ALPHA") "ALPHA"
                 eq_refl eq_refl))) _).
    vm_compute. discriminate.
Defined.

(** ** [get_repo_details] *)

Lemma fetchReadme_failed cfg gh repo_name :
  readmeFailed (raw_endpoint gh (readmeRequest cfg repo_name)) ->
  fetchReadme cfg gh repo_name = "(No README found)".
Proof.
  unfold fetchReadme, readmeFailed.
  destruct (raw_endpoint gh (readmeRequest cfg repo_name)) as [res|e]; [|reflexivity].
  intros [Hok|[e He]].
  - now rewrite Hok.
  - rewrite He. now destruct (ok res).
Qed.

(** C6. Once the repository itself has been fetched, the call succeeds
    whatever becomes of the README request; and when that request fails
    (rejected [fetch], status outside 2xx, unreadable body) the README
    section is exactly [(No README found)]. *)
Theorem repo_details_readme_fallback :
  forall (cfg : Config) (gh : Upstream) (args : Json) (repo : GHRepo),
    ghFetch cfg (repo_endpoint gh) (repoPath cfg args) = Ok repo ->
    (exists readme, handleGetRepoDetails cfg gh args = Ok (detailsText repo readme))
    /\ (readmeFailed (raw_endpoint gh (readmeRequest cfg (ToString (field args "repo_name")))) ->
        handleGetRepoDetails cfg gh args
        = Ok ("## Repository: " ++ name repo ++ nl ++ nl
                ++ JSON_stringify (repoDetails repo)
                ++ nl ++ nl ++ "## README" ++ nl ++ nl ++ "(No README found)")).
Proof.
  intros cfg gh args repo Hrepo.
  assert (Hrun : handleGetRepoDetails cfg gh args
                 = Ok (detailsText repo
                         (fetchReadme cfg gh (ToString (field args "repo_name"))))).
  { unfold handleGetRepoDetails. unfold repoPath in Hrepo. now rewrite Hrepo. }
  split.
  - eexists. exact Hrun.
  - intros Hfail. rewrite Hrun, (fetchReadme_failed Hfail). reflexivity.
Qed.

Lemma repo_details_readme_fallback_witness :
  handleGetRepoDetails sample_config snapshot_without_readme (args_repo "zeta")
  = Ok ("## Repository: zeta" ++ nl ++ nl
          ++ JSON_stringify (repoDetails (sample_repo "zeta" (Some "Go") 3 ["cli"] false))
          ++ nl ++ nl ++ "## README" ++ nl ++ nl ++ "(No README found)").
Proof.
  refine (proj2 (@repo_details_readme_fallback sample_config snapshot_without_readme
                   (args_repo "zeta") (sample_repo "zeta" (Some "Go") 3 ["cli"] false)
                   eq_refl) _).
  simpl. left. reflexivity.
Defined.

(** ** Determinism *)

Lemma ghFetch_same (T : Type) cfg (e1 e2 : Fetch T) (path : string) :
  e1 (apiRequest cfg path) = e2 (apiRequest cfg path) ->
  ghFetch cfg e1 path = ghFetch cfg e2 path.
Proof. unfold ghFetch. now intros ->. Qed.

(** C9. The text a handler returns, or the error it raises, is
    determined by its arguments and by the upstream's answers to the
    requests it issues: two runs that see the same answers return the
    same text. *)
Theorem handlers_deterministic :
  forall (platform : Platform) (cfg : Config) (gh1 gh2 : Upstream)
         (t : Tool) (args : Json),
    sameAnswers cfg t args gh1 gh2 ->
    runTool cfg gh1 t args = runTool cfg gh2 t args.
Proof.
  intros platform cfg gh1 gh2 t args Hsame.
  destruct t; cbn [runTool sameAnswers] in *.
  - unfold handleListRepos. fold (listReposPath cfg).
    now rewrite (ghFetch_same Hsame).
  - destruct Hsame as [Hrepo Hraw].
    unfold handleGetRepoDetails, fetchReadme. fold (repoPath cfg args).
    now rewrite (ghFetch_same Hrepo), Hraw.
  - unfold handleGetLanguages. fold (languagesPath cfg args).
    now rewrite (ghFetch_same Hsame).
  - unfold handleGetProfile. now rewrite (ghFetch_same Hsame).
  - unfold handleSearchRepos. fold (allReposPath cfg).
    now rewrite (ghFetch_same Hsame).
  - unfold handleGetTechStackSummary. fold (allReposPath cfg).
    now rewrite (ghFetch_same Hsame).
Qed.

Lemma handlers_deterministic_witness :
  runTool (platform := ascii_platform) sample_config (snapshot sample_repos)
          list_repos args_by_name
  = runTool (platform := ascii_platform) sample_config snapshot_without_readme
            list_repos args_by_name.
Proof.
  exact (@handlers_deterministic ascii_platform sample_config (snapshot sample_repos)
           snapshot_without_readme list_repos args_by_name eq_refl).
Defined.

(** ** Number arithmetic *)

Section NumberFacts.

Local Open Scope Q_scope.

Lemma ratio_bounds (A B P R : Q) :
  0 < P -> 0 < R -> P <= A -> A < 2 * P -> R <= B -> B < 2 * R ->
  P / (2 * R) < A / B /\ A / B < 2 * P / R.
Proof.
  intros HP HR H1 H2 H3 H4.
  assert (HB : 0 < B) by lra.
  split.
  - apply Qlt_shift_div_l; [assumption|].
    assert (E : P / (2 * R) * B == (P * B) / (2 * R)) by (field; lra).
    rewrite E. apply Qlt_shift_div_r; [lra|]. nra.
  - apply Qlt_shift_div_r; [assumption|].
    assert (E : 2 * P / R * B == (2 * P * B) / R) by (field; lra).
    rewrite E. apply Qlt_shift_div_l; [lra|]. nra.
Qed.

Lemma two_nonzero : ~ 2 == 0.
Proof. lra. Qed.

Lemma log2_bounds_Q (n : Z) :
  (0 < n)%Z -> 2 ^ Z.log2 n <= inject_Z n /\ inject_Z n < 2 * 2 ^ Z.log2 n.
Proof.
  intros Hn. destruct (Z.log2_spec n Hn) as [Hlo Hhi].
  pose proof (Z.log2_nonneg n) as Hnn.
  split.
  - rewrite <- (Zpower_Qpower 2 (Z.log2 n) Hnn). now rewrite <- Zle_Qle.
  - assert (E : 2 * 2 ^ Z.log2 n == inject_Z (2 ^ Z.succ (Z.log2 n))).
    { rewrite Zpower_Qpower by lia. unfold Z.succ.
      rewrite Qpower_plus by apply two_nonzero.
      change (inject_Z 2) with 2. change (2 ^ 1) with 2.
      generalize (2 ^ Z.log2 n). intros X. lra. }
    rewrite E. now rewrite <- Zlt_Qlt.
Qed.

(** [binade q] is the exponent of the power of two at or below [q]. *)
Lemma binade_spec (q : Q) :
  0 < q -> 2 ^ binade q <= q /\ q < 2 ^ (binade q + 1).
Proof.
  intros Hq. unfold binade.
  destruct q as [a b].
  assert (Ha : (0 < a)%Z).
  { unfold Qlt in Hq. simpl in Hq. lia. }
  simpl Qnum. simpl Qden.
  set (la := Z.log2 a). set (lb := Z.log2 (Z.pos b)).
  destruct (log2_bounds_Q Ha) as [Ha1 Ha2]. fold la in Ha1, Ha2.
  destruct (log2_bounds_Q (n := Z.pos b) eq_refl) as [Hb1 Hb2].
  fold lb in Hb1, Hb2.
  assert (HP : 0 < 2 ^ la) by (apply Qpower_0_lt; lra).
  assert (HR : 0 < 2 ^ lb) by (apply Qpower_0_lt; lra).
  destruct (ratio_bounds HP HR Ha1 Ha2 Hb1 Hb2) as [Hlo Hhi].
  rewrite <- Qmake_Qdiv in Hlo, Hhi.
  assert (Ek : 2 ^ (la - lb) == 2 ^ la / 2 ^ lb)
    by (apply Qpower_minus, two_nonzero).
  assert (Ek1 : 2 ^ (la - lb + 1) == 2 * 2 ^ la / 2 ^ lb).
  { rewrite Qpower_plus by apply two_nonzero. rewrite Ek. simpl. field. lra. }
  assert (Ek0 : 2 ^ (la - lb - 1) == 2 ^ la / (2 * 2 ^ lb)).
  { unfold Z.sub at 1. rewrite Qpower_plus by apply two_nonzero.
    fold (la - lb)%Z. rewrite Ek. simpl. field. lra. }
  destruct (Qle_bool (2 ^ (la - lb)) (a # b)) eqn:E.
  - apply Qle_bool_iff in E. split; [assumption|]. now rewrite Ek1.
  - assert (Hlt : a # b < 2 ^ (la - lb)).
    { apply Qnot_le_lt. intros H. apply Qle_bool_iff in H. congruence. }
    split.
    + rewrite Ek0. now apply Qlt_le_weak.
    + replace (la - lb - 1 + 1)%Z with (la - lb)%Z by lia. assumption.
Qed.

Lemma round_half_even_bounds (s : Q) :
  s - (1 # 2) <= inject_Z (round_half_even s)
  /\ inject_Z (round_half_even s) <= s + (1 # 2).
Proof.
  unfold round_half_even.
  pose proof (Qfloor_le s) as Hlo. pose proof (Qlt_floor s) as Hhi.
  rewrite inject_Z_plus in Hhi. change (inject_Z 1) with 1 in Hhi.
  destruct (s - inject_Z (Qfloor s) ?= 1 # 2) eqn:E.
  - apply Qeq_alt in E.
    destruct (Z.even (Qfloor s));
      [|rewrite inject_Z_plus; change (inject_Z 1) with 1]; lra.
  - apply Qlt_alt in E. lra.
  - apply Qgt_alt in E. rewrite inject_Z_plus. change (inject_Z 1) with 1. lra.
Qed.

Lemma nearest_tenth_bounds (x : Q) :
  x * 10 - (1 # 2) < inject_Z (nearest_tenth x)
  /\ inject_Z (nearest_tenth x) <= x * 10 + (1 # 2).
Proof.
  unfold nearest_tenth.
  pose proof (Qfloor_le (x * 10 + (1 # 2))) as Hlo.
  pose proof (Qlt_floor (x * 10 + (1 # 2))) as Hhi.
  rewrite inject_Z_plus in Hhi. change (inject_Z 1) with 1 in Hhi. lra.
Qed.

Lemma RN_positive (q : Q) :
  0 < q -> (-1022 <= binade q)%Z ->
  RN q == inject_Z (round_half_even (q / 2 ^ (binade q - 52))) * 2 ^ (binade q - 52).
Proof.
  intros Hq Hb. unfold RN.
  destruct (Qle_bool q 0) eqn:E.
  - apply Qle_bool_iff in E. lra.
  - rewrite Z.max_l by lia. reflexivity.
Qed.

(** Rounding a value of the normal range moves it by at most one unit
    roundoff, relatively. *)
Lemma RN_error (q : Q) :
  2 ^ (-1022) <= q ->
  q * (1 - unit_roundoff) <= RN q /\ RN q <= q * (1 + unit_roundoff).
Proof.
  intros Hnormal.
  assert (Hmin : 0 < 2 ^ (-1022)) by (apply Qpower_0_lt; lra).
  assert (Hq : 0 < q) by lra.
  destruct (binade_spec Hq) as [Hlo Hhi].
  assert (Hb : (-1022 <= binade q)%Z).
  { assert (H : (-1022 < binade q + 1)%Z).
    { apply Qpower_lt_compat_l_inv with (q := 2); [|lra].
      eapply Qle_lt_trans; eassumption. }
    lia. }
  rewrite (RN_positive Hq Hb).
  set (e := (binade q - 52)%Z) in *.
  assert (HE : 0 < 2 ^ e) by (apply Qpower_0_lt; lra).
  assert (Hsplit : 2 ^ binade q == 2 ^ e * 4503599627370496).
  { replace (binade q) with (e + 52)%Z by (unfold e; lia).
    rewrite Qpower_plus by apply two_nonzero. reflexivity. }
  rewrite Hsplit in Hlo.
  destruct (round_half_even_bounds (q / 2 ^ e)) as [Hm1 Hm2].
  assert (Hs : q / 2 ^ e * 2 ^ e == q) by (field; lra).
  revert Hm1 Hm2 Hs Hlo HE.
  generalize (inject_Z (round_half_even (q / 2 ^ e))).
  generalize (q / 2 ^ e). generalize (2 ^ e).
  unfold unit_roundoff. intros E s m Hm1 Hm2 Hs Hlo HE.
  split; nra.
Qed.

Lemma unit_roundoff_power : 2 ^ (-53) == unit_roundoff.
Proof. reflexivity. Qed.

(** The computed percentage is the exact one up to three roundoffs. *)
Lemma sharePercent_accuracy (total bytes : N) :
  (0 < bytes)%N -> (bytes <= total)%N -> (total < 2 ^ 53)%N ->
  exactPercent total bytes * (1 - 3 * unit_roundoff) <= sharePercent total bytes
  /\ sharePercent total bytes <= exactPercent total bytes * (1 + 3 * unit_roundoff).
Proof.
  intros Hb Hle Hsafe. unfold sharePercent, exactPercent, Number_mul, Number_div.
  set (B := inject_Z (Z.of_N bytes)). set (T := inject_Z (Z.of_N total)).
  assert (HB : 1 <= B).
  { unfold B. change 1 with (inject_Z 1). rewrite <- Zle_Qle. lia. }
  assert (HBT : B <= T).
  { unfold B, T. rewrite <- Zle_Qle. lia. }
  assert (HT : T < 9007199254740992).
  { unfold T. change 9007199254740992 with (inject_Z 9007199254740992).
    rewrite <- Zlt_Qlt. change 9007199254740992%Z with (Z.of_N (2 ^ 53)). lia. }
  assert (Hmin : 2 ^ (-1022) <= 2 ^ (-54)).
  { apply Qpower_le_compat_l; [lia | lra]. }
  assert (E54 : 2 ^ (-54) == 1 # 18014398509481984) by reflexivity.
  rewrite E54 in Hmin.
  assert (Hq : B / T * T == B) by (field; lra).
  assert (Hq0 : (1 # 9007199254740992) <= B / T).
  { apply Qle_shift_div_l; [lra|]. lra. }
  destruct (@RN_error (B / T)) as [Hy1 Hy2]; [lra|].
  destruct (@RN_error (RN (B / T) * 100)) as [Hx1 Hx2].
  { unfold unit_roundoff in Hy1. nra. }
  assert (Hexact : 100 * B / T == 100 * (B / T)) by (field; lra).
  rewrite Hexact.
  revert Hy1 Hy2 Hx1 Hx2 Hq0.
  generalize (RN (RN (B / T) * 100)). generalize (RN (B / T)). generalize (B / T).
  unfold unit_roundoff. intros q y x Hy1 Hy2 Hx1 Hx2 Hq0.
  split; nra.
Qed.

Lemma sharePercent_zero (total : N) : sharePercent total 0 = 0.
Proof.
  unfold sharePercent, Number_mul, Number_div.
  assert (E : RN (inject_Z (Z.of_N 0) / inject_Z (Z.of_N total)) = 0).
  { unfold RN.
    destruct (Qle_bool (inject_Z (Z.of_N 0) / inject_Z (Z.of_N total)) 0) eqn:E;
      [reflexivity|].
    exfalso. apply not_true_iff_false in E. apply E, Qle_bool_iff.
    simpl. unfold Qdiv. rewrite Qmult_0_l. lra. }
  rewrite E. reflexivity.
Qed.

(** The printed tenths of one share, against its exact share of 1000. *)
Lemma shareTenths_bounds (total bytes : N) :
  (bytes <= total)%N -> (0 < total)%N -> (total < 2 ^ 53)%N ->
  exactPercent total bytes * 10 * (1 - 3 * unit_roundoff) - (1 # 2)
    <= inject_Z (shareTenths total bytes)
  /\ inject_Z (shareTenths total bytes)
     <= exactPercent total bytes * 10 * (1 + 3 * unit_roundoff) + (1 # 2).
Proof.
  intros Hle Hpos Hsafe. unfold shareTenths.
  destruct (N.eq_dec bytes 0) as [->|Hne].
  - rewrite sharePercent_zero. unfold exactPercent.
    change (nearest_tenth 0) with 0%Z.
    change (inject_Z (Z.of_N 0)) with 0. change (inject_Z 0) with 0.
    assert (E : 100 * 0 / inject_Z (Z.of_N total) == 0).
    { unfold Qdiv. rewrite Qmult_0_r, Qmult_0_l. reflexivity. }
    rewrite E. unfold unit_roundoff. lra.
  - destruct (@sharePercent_accuracy total bytes) as [H1 H2]; try assumption; [lia|].
    destruct (nearest_tenth_bounds (sharePercent total bytes)) as [H3 H4].
    revert H1 H2 H3 H4.
    generalize (inject_Z (nearest_tenth (sharePercent total bytes))).
    generalize (sharePercent total bytes). generalize (exactPercent total bytes).
    unfold unit_roundoff. intros p x t H1 H2 H3 H4. split; lra.
Qed.

Lemma exactPercent_add (total a b : N) :
  (0 < total)%N ->
  exactPercent total (a + b) == exactPercent total a + exactPercent total b.
Proof.
  intros Hpos. unfold exactPercent.
  rewrite N2Z.inj_add, inject_Z_plus.
  assert (HT : 0 < inject_Z (Z.of_N total)).
  { change 0 with (inject_Z 0). rewrite <- Zlt_Qlt. lia. }
  field. lra.
Qed.

Lemma exactPercent_all (total : N) : (0 < total)%N -> exactPercent total total == 100.
Proof.
  intros Hpos. unfold exactPercent.
  assert (HT : 0 < inject_Z (Z.of_N total)).
  { change 0 with (inject_Z 0). rewrite <- Zlt_Qlt. lia. }
  field. lra.
Qed.

Lemma exactPercent_nonneg (total bytes : N) : 0 <= exactPercent total bytes.
Proof.
  unfold exactPercent.
  destruct (N.eq_dec total 0) as [->|Hne].
  - simpl. unfold Qdiv. simpl. rewrite Qmult_0_r. lra.
  - apply Qle_shift_div_l.
    + change 0 with (inject_Z 0). rewrite <- Zlt_Qlt. lia.
    + rewrite Qmult_0_l.
      assert (H : 0 <= inject_Z (Z.of_N bytes)).
      { change 0 with (inject_Z 0). rewrite <- Zle_Qle. lia. }
      lra.
Qed.

Lemma fold_left_Nsum (l : list N) (acc : N) :
  fold_left N.add l acc = (acc + Nsum l)%N.
Proof.
  revert acc. induction l as [|b l IH]; intros acc; simpl.
  - lia.
  - rewrite IH. lia.
Qed.

(** Summing the printed tenths of the entries of [l]. *)
Lemma tenths_sum_bounds (total : N) (l : list N) :
  (0 < total)%N -> (total < 2 ^ 53)%N -> (Nsum l <= total)%N ->
  exactPercent total (Nsum l) * 10 * (1 - 3 * unit_roundoff)
    - inject_Z (Z.of_nat (length l)) * (1 # 2)
    <= inject_Z (zsum (map (shareTenths total) l))
  /\ inject_Z (zsum (map (shareTenths total) l))
     <= exactPercent total (Nsum l) * 10 * (1 + 3 * unit_roundoff)
        + inject_Z (Z.of_nat (length l)) * (1 # 2).
Proof.
  intros Hpos Hsafe. induction l as [|b l IH]; intros Hsum.
  - simpl. unfold exactPercent, unit_roundoff. simpl.
    unfold Qdiv. rewrite Qmult_0_l. change (inject_Z 0) with 0. lra.
  - simpl Nsum in *. simpl map. simpl zsum.
    assert (Hb : (b <= total)%N) by lia.
    assert (Hl : (Nsum l <= total)%N) by lia.
    destruct (IH Hl) as [IH1 IH2].
    destruct (shareTenths_bounds Hb Hpos Hsafe) as [Hb1 Hb2].
    rewrite exactPercent_add by assumption.
    rewrite inject_Z_plus.
    replace (length (b :: l)) with (S (length l)) by reflexivity.
    rewrite Nat2Z.inj_succ. unfold Z.succ. rewrite inject_Z_plus.
    change (inject_Z 1) with 1.
    revert IH1 IH2 Hb1 Hb2.
    generalize (inject_Z (zsum (map (shareTenths total) l))).
    generalize (inject_Z (shareTenths total b)).
    generalize (exactPercent total (Nsum l)). generalize (exactPercent total b).
    generalize (inject_Z (Z.of_nat (length l))).
    unfold unit_roundoff. intros n pb pl tb tl IH1 IH2 Hb1 Hb2. split; lra.
Qed.

(** The printed percentages add up to 100 within half a tenth per
    entry. *)
Lemma tenths_sum_total (l : list N) :
  (0 < Nsum l)%N -> (Nsum l < 2 ^ 53)%N ->
  (2 * Z.abs (zsum (map (shareTenths (Nsum l)) l) - 1000)
   <= Z.of_nat (length l))%Z.
Proof.
  intros Hpos Hsafe.
  destruct (@tenths_sum_bounds (Nsum l) l Hpos Hsafe (N.le_refl _)) as [H1 H2].
  rewrite (exactPercent_all Hpos) in H1, H2.
  set (zs := zsum (map (shareTenths (Nsum l)) l)) in *.
  set (n := Z.of_nat (length l)) in *.
  assert (Hup : (2 * zs < 2000 + n + 1)%Z).
  { rewrite Zlt_Qlt, !inject_Z_plus, inject_Z_mult.
    change (inject_Z 2) with 2. change (inject_Z 2000) with 2000.
    change (inject_Z 1) with 1. unfold unit_roundoff in H2. lra. }
  assert (Hdown : (2000 < 2 * zs + n + 1)%Z).
  { rewrite Zlt_Qlt, !inject_Z_plus, inject_Z_mult.
    change (inject_Z 2) with 2. change (inject_Z 2000) with 2000.
    change (inject_Z 1) with 1. unfold unit_roundoff in H1. lra. }
  lia.
Qed.

End NumberFacts.

(** ** [get_languages] *)

Lemma define_own_keys (V : Type) (o : JsObject V) (k : string) (v : V) :
  map fst (define_own o k v)
  = if existsb (String.eqb k) (map fst o) then map fst o else (map fst o ++ [k])%list.
Proof.
  induction o as [|[k' v'] o IH]; simpl; [reflexivity|].
  rewrite (String.eqb_sym k k').
  destruct (k' =? k); simpl; [reflexivity|].
  rewrite IH. now destruct (existsb (String.eqb k) (map fst o)).
Qed.

Lemma define_own_fold_keys (V : Type) (members : list (string * V)) (o : JsObject V) :
  map fst (fold_left (fun o kv => define_own o (fst kv) (snd kv)) members o)
  = fold_left (fun seen k => if existsb (String.eqb k) seen then seen
                             else (seen ++ [k])%list)
              (map fst members) (map fst o).
Proof.
  revert o. induction members as [|[k v] members IH]; intros o; simpl; [reflexivity|].
  rewrite IH. now rewrite define_own_keys.
Qed.

Lemma JSON_parse_object_keys (V : Type) (members : list (string * V)) :
  map fst (JSON_parse_object members) = first_seen (map fst members).
Proof.
  unfold JSON_parse_object, first_seen. apply define_own_fold_keys.
Qed.

Lemma Object_keys_perm (V : Type) (o : JsObject V) :
  Permutation (Object_keys o) (map fst o).
Proof. unfold Object_keys. apply Permutation_map, Object_entries_perm. Qed.

Lemma Nsum_In (l : list N) (b : N) : In b l -> (b <= Nsum l)%N.
Proof.
  induction l as [|a l IH]; simpl; [contradiction|].
  intros [->|H]; [lia | specialize (IH H); lia].
Qed.

Section ShareFacts.

Local Open Scope Q_scope.

Lemma exactPercent_le_100 (total bytes : N) :
(0 < total)%N -> (bytes <= total)%N -> exactPercent total bytes <= 100.
Proof.
intros Hpos Hle. unfold exactPercent.
assert (HT : 0 < inject_Z (Z.of_N total)).
{ change 0 with (inject_Z 0). rewrite <- Zlt_Qlt. lia. }
assert (HB : inject_Z (Z.of_N bytes) <= inject_Z (Z.of_N total)).
{ rewrite <- Zle_Qle. lia. }
apply Qle_shift_div_r; [assumption|]. lra.
Qed.

Lemma shareTenths_range (total bytes : N) :
(bytes <= total)%N -> (0 < total)%N -> (total < 2 ^ 53)%N ->
(0 <= shareTenths total bytes <= 1000)%Z.
Proof.
intros Hle Hpos Hsafe.
destruct (shareTenths_bounds Hle Hpos Hsafe) as [H1 H2].
pose proof (exactPercent_le_100 Hpos Hle) as H100.
pose proof (@exactPercent_nonneg total bytes) as H0.
unfold unit_roundoff in *.
split.
- assert (H : (-1 < shareTenths total bytes)%Z).
  { rewrite Zlt_Qlt. change (inject_Z (-1)) with (-1). 
    revert H1 H0 H100. generalize (exactPercent total bytes).
    generalize (inject_Z (shareTenths total bytes)). intros t p H1 H0 H100. nra. }
  lia.
- assert (H : (shareTenths total bytes < 1001)%Z).
  { rewrite Zlt_Qlt. change (inject_Z 1001) with 1001.
    revert H2 H0 H100. generalize (exactPercent total bytes).
    generalize (inject_Z (shareTenths total bytes)). intros t p H2 H0 H100. nra. }
  lia.
Qed.

Lemma shareTenths_whole (total : N) :
(0 < total)%N -> (total < 2 ^ 53)%N -> shareTenths total total = 1000%Z.
Proof.
intros Hpos Hsafe.
destruct (shareTenths_bounds (N.le_refl total) Hpos Hsafe) as [H1 H2].
rewrite (exactPercent_all Hpos) in H1, H2. unfold unit_roundoff in *.
assert (Hlo : (999 < shareTenths total total)%Z).
{ rewrite Zlt_Qlt. change (inject_Z 999) with 999. lra. }
assert (Hhi : (shareTenths total total < 1001)%Z).
{ rewrite Zlt_Qlt. change (inject_Z 1001) with 1001. lra. }
lia.
Qed.

End ShareFacts.

Lemma string_app_assoc (a b c : string) : (a ++ b) ++ c = a ++ (b ++ c).
Proof.
  induction a as [|x a IH]; simpl; [reflexivity | now rewrite IH].
Qed.

Lemma assoc_of_In (V : Type) (l : list (string * V)) (k : string) (v : V) :
  NoDup (map fst l) -> In (k, v) l -> assoc k l = Some v.
Proof.
  induction l as [|[a w] l IH]; simpl; intros Hnd Hin; [contradiction|].
  inversion Hnd as [|? ? Hfresh Hrest]; subst.
  destruct Hin as [H|H].
  - inversion H; subst. now rewrite String.eqb_refl.
  - destruct (String.eqb_spec a k) as [->|_]; [|now apply IH].
    exfalso. apply Hfresh. change k with (fst (k, v)). now apply in_map.
Qed.

Lemma define_own_In (V : Type) (o : JsObject V) (k a : string) (v w : V) :
  In (a, w) (define_own o k v) -> In (a, w) o \/ (a, w) = (k, v).
Proof.
  induction o as [|[k' v'] o IH]; simpl.
  - intros [H|[]]. right. now symmetry.
  - destruct (String.eqb_spec k' k) as [->|_]; simpl.
    + intros [H|H]; [right; now symmetry | left; now right].
    + intros [H|H]; [left; now left|].
      destruct (IH H) as [H'|H']; [left; now right | now right].
Qed.

Lemma JSON_parse_object_In (V : Type) (members : list (string * V)) (a : string) (w : V) :
  In (a, w) (JSON_parse_object members) -> In (a, w) members.
Proof.
  unfold JSON_parse_object.
  assert (H : forall o, In (a, w) (fold_left (fun o kv => define_own o (fst kv) (snd kv))
                                             members o) ->
                        In (a, w) o \/ In (a, w) members).
  { induction members as [|[k v] members IH]; intros o Hin; simpl in *.
    - now left.
    - destruct (IH _ Hin) as [H|H]; [|right; now right].
      destruct (define_own_In H) as [H'|H']; [now left|].
      right. left. now symmetry. }
  intros Hin. destruct (H [] Hin) as [[]|Hm]. exact Hm.
Qed.

(** The digits that [digits_of_pos_fuel] writes spell the number. *)
Lemma digit_value_char (m : Z) :
  (0 <= m < 10)%Z -> digit_value (ascii_of_nat (48 + Z.to_nat m)) = Some m.
Proof.
  intros Hm.
  assert (H : (m = 0 \/ m = 1 \/ m = 2 \/ m = 3 \/ m = 4 \/ m = 5 \/ m = 6
               \/ m = 7 \/ m = 8 \/ m = 9)%Z) by lia.
  repeat (destruct H as [H|H]; [subst m; reflexivity|]). subst m. reflexivity.
Qed.

Lemma numeral_value_step (c : ascii) (rest : string) (acc d : Z) :
  digit_value c = Some d ->
  numeral_value (String c rest) acc = numeral_value rest (10 * acc + d)%Z.
Proof. intros H. cbn [numeral_value]. now rewrite H. Qed.

Lemma digits_spell_small (fuel : nat) (n : Z) :
  (0 <= n < 10)%Z ->
  exists c D,
    (forall acc, digits_of_pos_fuel (S fuel) n acc = String c D ++ acc)
    /\ (forall rest, numeral_value (String c D ++ rest) 0 = numeral_value rest n)
    /\ (digit_value c = Some 0%Z -> D = EmptyString /\ n = 0%Z).
Proof.
  intros Hn. pose proof (digit_value_char Hn) as Hv.
  exists (ascii_of_nat (48 + Z.to_nat n)), EmptyString.
  split; [|split].
  - intros acc. cbn [digits_of_pos_fuel].
    rewrite (proj2 (Z.ltb_lt n 10) ltac:(lia)).
    rewrite Z.mod_small by lia. reflexivity.
  - intros rest. simpl append. rewrite (numeral_value_step _ _ Hv). reflexivity.
  - intros H0. rewrite Hv in H0. split; [reflexivity | congruence].
Qed.

Lemma digits_spell (fuel : nat) :
  forall n : Z,
    (0 <= n < 10 ^ Z.of_nat (S fuel))%Z ->
    exists c D,
      (forall acc, digits_of_pos_fuel (S fuel) n acc = String c D ++ acc)
      /\ (forall rest, numeral_value (String c D ++ rest) 0
                       = numeral_value rest n)
      /\ (digit_value c = Some 0%Z -> D = EmptyString /\ n = 0%Z).
Proof.
  induction fuel as [|fuel IH]; intros n Hn.
  - apply digits_spell_small. simpl in Hn. lia.
  - assert (Hmod : (0 <= n mod 10 < 10)%Z) by (apply Z.mod_pos_bound; lia).
    pose proof (digit_value_char Hmod) as Hv.
    destruct (Z.lt_ge_cases n 10) as [Hlt|Hbig]; [apply digits_spell_small; lia|].
    assert (Hdiv : (0 <= n / 10 < 10 ^ Z.of_nat (S fuel))%Z).
    { split; [apply Z.div_pos; lia|].
      apply Z.div_lt_upper_bound; [lia|].
      rewrite (Nat2Z.inj_succ (S fuel)), Z.pow_succ_r in Hn by lia. lia. }
    assert (Hquot : (1 <= n / 10)%Z) by (apply Z.div_le_lower_bound; lia).
    destruct (IH (n / 10)%Z Hdiv) as [c [D [Hbuild [Hread Hlead]]]].
    exists c, (D ++ String (ascii_of_nat (48 + Z.to_nat (n mod 10))) EmptyString).
    split; [|split].
    + intros acc. cbn [digits_of_pos_fuel].
      rewrite (proj2 (Z.ltb_ge n 10) Hbig).
      change (digits_of_pos_fuel (S fuel) (n / 10)
                (String (ascii_of_nat (48 + Z.to_nat (n mod 10))) EmptyString ++ acc)
              = String c (D ++ String (ascii_of_nat (48 + Z.to_nat (n mod 10)))
                                      EmptyString) ++ acc).
      rewrite Hbuild. simpl. f_equal. now rewrite string_app_assoc.
    + intros rest.
      change (String c (D ++ String (ascii_of_nat (48 + Z.to_nat (n mod 10)))
                                    EmptyString) ++ rest)
        with (String c ((D ++ String (ascii_of_nat (48 + Z.to_nat (n mod 10)))
                                     EmptyString) ++ rest)).
      rewrite string_app_assoc.
      change (String c (D ++ String (ascii_of_nat (48 + Z.to_nat (n mod 10)))
                                    EmptyString ++ rest))
        with (String c D
              ++ String (ascii_of_nat (48 + Z.to_nat (n mod 10))) rest).
      rewrite Hread, (numeral_value_step _ _ Hv).
      f_equal. pose proof (Z.div_mod n 10). lia.
    + intros H0. destruct (Hlead H0) as [_ Hzero]. lia.
Qed.

Lemma string_app_empty (s : string) : s ++ "" = s.
Proof. induction s as [|c s IH]; simpl; [reflexivity | now rewrite IH]. Qed.

Lemma digits_of_nonneg_numeral (n : Z) :
  (0 <= n)%Z -> numeral (digits_of_nonneg n) n.
Proof.
  intros Hn. unfold digits_of_nonneg.
  assert (Hfuel : (0 <= n < 10 ^ Z.of_nat (S (Z.to_nat (Z.log2 n))))%Z).
  { split; [assumption|].
    destruct (Z.eq_dec n 0) as [->|Hne]; [reflexivity|].
    pose proof (Z.log2_nonneg n) as Hl.
    destruct (Z.log2_spec n ltac:(lia)) as [_ Hhi].
    rewrite Nat2Z.inj_succ, Z2Nat.id by assumption.
    eapply Z.lt_le_trans; [exact Hhi|].
    apply Z.pow_le_mono_l. lia. }
  destruct (digits_spell Hfuel) as [c [D [Hbuild [Hread Hlead]]]].
  rewrite Hbuild, string_app_empty.
  specialize (Hread ""). rewrite string_app_empty in Hread.
  unfold numeral. split; [exact Hread|].
  intros H0. now destruct (Hlead H0).
Qed.

Lemma digits_of_nonneg_digit (m : Z) :
  (0 <= m < 10)%Z ->
  digits_of_nonneg m = String (ascii_of_nat (48 + Z.to_nat m)) EmptyString.
Proof.
  intros Hm. unfold digits_of_nonneg. cbn [digits_of_pos_fuel].
  rewrite (proj2 (Z.ltb_lt m 10) ltac:(lia)).
  rewrite Z.mod_small by lia. reflexivity.
Qed.

(** [toFixed(1)] followed by [%] shows the tenths with one decimal
    place. *)
Lemma format_tenths_oneDecimal (t : Z) :
  (0 <= t)%Z -> oneDecimalPercent t (format_tenths t ++ "%").
Proof.
  intros Ht.
  assert (Hmod : (0 <= t mod 10 < 10)%Z) by (apply Z.mod_pos_bound; lia).
  exists (digits_of_nonneg (t / 10)), (ascii_of_nat (48 + Z.to_nat (t mod 10))).
  split; [|split].
  - unfold format_tenths. rewrite (digits_of_nonneg_digit Hmod).
    rewrite !string_app_assoc. reflexivity.
  - apply digits_of_nonneg_numeral. apply Z.div_pos; lia.
  - now apply digit_value_char.
Qed.

Lemma handleGetLanguages_ok cfg gh args members :
  ghFetch cfg (languages_endpoint gh) (languagesPath cfg args) = Ok members ->
  handleGetLanguages cfg gh args
  = Ok (JSON_stringify
          (JArr (map json_of_share (languageBreakdown (JSON_parse_object members))))).
Proof.
  unfold handleGetLanguages, languagesPath. intros ->. reflexivity.
Qed.

(** C5. [get_languages] prints one line per language of the mapping,
    with the byte count the mapping gives that language.  With a total of
    zero every percentage is the text [0%].  With a positive total each
    percentage is the Number [(bytes / total) * 100], which lies within
    three roundoffs of the exact percentage, rounded to its nearest tenth
    and shown with one decimal place (the numeral of the whole part, a
    point, one digit) followed by [%]; and the printed percentages add
    up to 100 within half a tenth per line.  Byte counts are taken in the
    range where Number addition is exact. *)
Theorem languages_percentages :
  forall (cfg : Config) (gh : Upstream) (args : Json) (members : list (string * N)),
    ghFetch cfg (languages_endpoint gh) (languagesPath cfg args) = Ok members ->
    let languages := JSON_parse_object members in
    let total := fold_left N.add (Object_values languages) 0%N in
    let shares := languageBreakdown languages in
    (total < 2 ^ 53)%N ->
    handleGetLanguages cfg gh args
    = Ok (JSON_stringify
            (JArr (map (fun e => JObj [ ("language", JStr (share_language e));
                                        ("bytes", JNum (Z.of_N (share_bytes e)));
                                        ("percentage", JStr (percentage e)) ])
                       shares)))
    /\ (NoDup (map share_language shares)
        /\ (forall k, In k (map share_language shares) <-> In k (map fst members))
        /\ (forall e, In e shares ->
                      assoc (share_language e) languages = Some (share_bytes e)
                      /\ In (share_language e, share_bytes e) members))
    /\ (total = 0%N -> Forall (fun e => percentage e = "0%") shares)
    /\ ((0 < total)%N ->
        Forall (printedShare total) shares
        /\ Forall (fun e => oneDecimalPercent (shareTenths total (share_bytes e))
                                              (percentage e))
                  shares
        /\ (2 * Z.abs (zsum (map (fun e => shareTenths total (share_bytes e)) shares)
                       - 1000)
            <= Z.of_nat (length shares))%Z).
Proof.
  intros cfg gh args members Hfetch languages total shares Hsafe.
  assert (Htotal : total = Nsum (Object_values languages)).
  { unfold total. now rewrite fold_left_Nsum. }
  assert (Hnames : map share_language shares = Object_keys languages).
  { unfold shares, languageBreakdown, Object_keys. now rewrite map_map. }
  assert (Hbytes : map share_bytes shares = Object_values languages).
  { unfold shares, languageBreakdown, Object_values. now rewrite map_map. }
  assert (Hkeys : NoDup (map fst languages)).
  { unfold languages. rewrite JSON_parse_object_keys. apply first_seen_NoDup. }
  assert (Hentry : forall e, In e shares ->
            In (share_language e, share_bytes e) languages
            /\ (share_bytes e <= total)%N
            /\ percentage e
               = if (0 <? total)%N
                 then format_tenths (shareTenths total (share_bytes e)) ++ "%"
                 else "0%").
  { intros e He.
    assert (Hle : (share_bytes e <= total)%N).
    { rewrite Htotal. apply Nsum_In. rewrite <- Hbytes. now apply in_map. }
    unfold shares, languageBreakdown in He. apply in_map_iff in He.
    destruct He as [[k b] [<- Hkb]]. simpl in *.
    split; [|split; [assumption | reflexivity]].
    now apply (Permutation_in _ (Object_entries_perm languages)). }
  split; [exact (handleGetLanguages_ok Hfetch)|].
  split; [|split].
  - rewrite Hnames. split; [|split].
    + apply (Permutation_NoDup (Permutation_sym (Object_keys_perm languages))).
      exact Hkeys.
    + intros k. split; intros H.
      * apply first_seen_In. rewrite <- JSON_parse_object_keys.
        now apply (Permutation_in _ (Object_keys_perm languages)).
      * apply (Permutation_in _ (Permutation_sym (Object_keys_perm languages))).
        unfold languages. rewrite JSON_parse_object_keys. now apply first_seen_In.
    + intros e He. destruct (Hentry e He) as [Hin _]. split.
      * now apply assoc_of_In.
      * now apply JSON_parse_object_In.
  - intros Hzero. apply Forall_forall. intros e He.
    destruct (Hentry e He) as [_ [_ Hpct]]. now rewrite Hpct, Hzero.
  - intros Hpos. split; [|split].
    + apply Forall_forall. intros e He.
      destruct (Hentry e He) as [_ [Hle Hpct]].
      rewrite (proj2 (N.ltb_lt 0 total) Hpos) in Hpct.
      unfold printedShare.
      split; [exact Hpct|].
      destruct (nearest_tenth_bounds (sharePercent total (share_bytes e))) as [Ht1 Ht2].
      split; [exact Ht1|]. split; [exact Ht2|].
      destruct (N.eq_dec (share_bytes e) 0) as [Hb0|Hb].
      * rewrite Hb0, sharePercent_zero. unfold exactPercent.
        change (inject_Z (Z.of_N 0)) with 0%Q.
        assert (E : (100 * 0 / inject_Z (Z.of_N total) == 0)%Q).
        { unfold Qdiv. rewrite Qmult_0_r, Qmult_0_l. reflexivity. }
        rewrite E. unfold unit_roundoff. split; lra.
      * apply sharePercent_accuracy; [lia | assumption | assumption].
    + apply Forall_forall. intros e He.
      destruct (Hentry e He) as [_ [Hle Hpct]].
      rewrite (proj2 (N.ltb_lt 0 total) Hpos) in Hpct. rewrite Hpct.
      apply format_tenths_oneDecimal.
      now apply (shareTenths_range Hle Hpos Hsafe).
    + replace (map (fun e => shareTenths total (share_bytes e)) shares)
        with (map (shareTenths total) (Object_values languages)).
      * replace (length shares) with (length (Object_values languages)).
        -- rewrite Htotal. apply tenths_sum_total; now rewrite <- Htotal.
        -- rewrite <- Hbytes. now rewrite length_map.
      * rewrite <- Hbytes. now rewrite map_map.
Qed.

Lemma languages_percentages_witness :
  handleGetLanguages sample_config snapshot_without_readme (args_repo "zeta")
  = Ok (JSON_stringify
          (JArr [ JObj [ ("language", JStr "Go"); ("bytes", JNum 300);
                         ("percentage", JStr "75.0%") ];
                  JObj [ ("language", JStr "Shell"); ("bytes", JNum 100);
                         ("percentage", JStr "25.0%") ] ]))
  /\ Forall (printedShare 400)
            (languageBreakdown (JSON_parse_object [("Go", 300%N); ("Shell", 100%N)]))
  /\ Forall (fun e => oneDecimalPercent (shareTenths 400 (share_bytes e)) (percentage e))
            (languageBreakdown (JSON_parse_object [("Go", 300%N); ("Shell", 100%N)])).
Proof.
  pose proof (@languages_percentages sample_config snapshot_without_readme
                (args_repo "zeta") [("Go", 300%N); ("Shell", 100%N)] eq_refl eq_refl)
    as [Hrun [_ [_ Hpos]]].
  destruct (Hpos eq_refl) as [Hprinted [Hdecimal _]].
  split; [exact Hrun|]. split; [exact Hprinted | exact Hdecimal].
Defined.

(** ** The REST proxy *)

Lemma callRoute_registered {platform : Platform} cfg gh toolName reqBody t :
  assoc toolName TOOL_REGISTRY = Some t ->
  callRoute cfg gh toolName reqBody
  = settle (text <- runTool cfg gh t (nullish_or (field reqBody "args") (JObj [])) ;;
            Ok (JStr text)).
Proof.
  intros H. unfold callRoute, Get. now rewrite H.
Qed.

(** A registered tool is answered with 200 and the content envelope when
    its handler returns, and with 500 and the stringified error when it
    throws; a body without [args] stands for [args = {}]. *)
Lemma callRoute_registered_outcomes {platform : Platform} cfg gh toolName reqBody t :
  assoc toolName TOOL_REGISTRY = Some t ->
  let args := nullish_or (field reqBody "args") (JObj []) in
  (field reqBody "args" = None -> args = JObj [])
  /\ (forall text, runTool cfg gh t args = Ok text ->
        callRoute cfg gh toolName reqBody
        = {| http_status := 200;
             http_json := JObj [("content",
                                 JArr [JObj [("type", JStr "text");
                                             ("text", JStr text)]])] |})
  /\ (forall err, runTool cfg gh t args = Throw err ->
        callRoute cfg gh toolName reqBody
        = {| http_status := 500;
             http_json := JObj [("error", JStr (String_of_error err))] |}).
Proof.
  intros H args. split; [|split].
  - unfold args. now intros ->.
  - intros text Hrun. rewrite (callRoute_registered cfg gh reqBody H).
    fold args. now rewrite Hrun.
  - intros err Hrun. rewrite (callRoute_registered cfg gh reqBody H).
    fold args. now rewrite Hrun.
Qed.

(** A name that neither the registry nor [Object.prototype] defines is
    answered with 404 and the six registered names. *)
Lemma callRoute_unknown {platform : Platform} cfg gh toolName reqBody :
  assoc toolName TOOL_REGISTRY = None -> plain toolName ->
  callRoute cfg gh toolName reqBody
  = {| http_status := 404;
       http_json :=
         JObj [ ("error", JStr ("Unknown tool: " ++ toolName));
                ("available",
                 JArr [ JStr "list_repos"; JStr "get_repo_details";
                        JStr "get_languages"; JStr "get_profile";
                        JStr "search_repos"; JStr "get_tech_stack_summary" ]) ] |}.
Proof.
  intros Hreg Hplain. unfold callRoute, Get. unfold plain in Hplain.
  now rewrite Hreg, Hplain.
Qed.

(** C7 does not hold of the route: [constructor] is none of the six
    tools, yet [TOOL_REGISTRY["constructor"]] finds the inherited
    [Object] function, the 404 branch is skipped, [Object(args)] runs as
    the handler, and the answer is 200 with [args] as the text. *)
Theorem callRoute_inherited_name :
  forall (platform : Platform) (cfg : Config) (gh : Upstream) (reqBody : Json),
    ~ In "constructor" (Object_keys TOOL_REGISTRY)
    /\ callRoute cfg gh "constructor" reqBody
       = {| http_status := 200;
            http_json :=
              JObj [("content",
                     JArr [JObj [("type", JStr "text");
                                 ("text", nullish_or (field reqBody "args") (JObj []))]])] |}.
Proof.
  intros platform cfg gh reqBody. split.
  - vm_compute. intuition discriminate.
  - reflexivity.
Qed.

(** ** Start-up *)

(** The transport is HTTP exactly when the resolved port is a non-zero
    number. *)
Lemma main_http (env : Env) (n : Z) :
  main env = HttpActive n <-> PORT env = PortNumber n /\ n <> 0%Z.
Proof.
  unfold main. destruct (PORT env) as [| |m]; try (split; [discriminate | intros [H _]; discriminate]).
  destruct (Z.eqb_spec m 0) as [->|Hne].
  - split; [discriminate|]. intros [H Hn]. inversion H. congruence.
  - split.
    + intros H. inversion H. subst. split; [reflexivity | assumption].
    + intros [H _]. now inversion H.
Qed.

(** With no variable set the server speaks stdio; with [PORT] spelling a
    non-zero integer it listens there; and with [PORT] unset and
    [RAILWAY_ENVIRONMENT] non-empty it listens on 3000. *)
Lemma main_usual_cases (env : Env) :
  (env "PORT" = None -> env "RAILWAY_ENVIRONMENT" = None -> env "RENDER" = None ->
   env "FLY_APP_NAME" = None -> main env = StdioActive)
  /\ (forall p n, env "PORT" = Some p -> p <> "" -> parseInt10 p = Some n -> n <> 0%Z ->
                  main env = HttpActive n)
  /\ (forall s, env "PORT" = None -> env "RAILWAY_ENVIRONMENT" = Some s -> s <> "" ->
                main env = HttpActive 3000).
Proof.
  split; [|split].
  - intros HP H1 H2 H3. unfold main, PORT, IS_CLOUD. now rewrite HP, H1, H2, H3.
  - intros p n HP Hne Hparse Hn. unfold main, PORT. rewrite HP.
    apply String.eqb_neq in Hne. rewrite Hne. simpl. rewrite Hparse.
    apply Z.eqb_neq in Hn. now rewrite Hn.
  - intros s HP H1 Hne. unfold main, PORT, IS_CLOUD. rewrite HP, H1. simpl.
    apply String.eqb_neq in Hne. now rewrite Hne.
Qed.

(** C8 does not hold of the start-up code.  With [RAILWAY_ENVIRONMENT]
    set to the empty string the [??] chain stops there and ignores
    [RENDER], so a set platform signal without explicit port still yields
    stdio; and [PORT=0] is an explicit port, yet [if (PORT)] takes it for
    none. *)
Theorem main_misses_platform_signal :
  main (env_of [("RAILWAY_ENVIRONMENT", ""); ("RENDER", "true")]) = StdioActive
  /\ IS_CLOUD (env_of [("RAILWAY_ENVIRONMENT", ""); ("RENDER", "true")]) = false
  /\ main (env_of [("PORT", "0")]) = StdioActive
  /\ PORT (env_of [("PORT", "0")]) = PortNumber 0.
Proof. repeat split. Qed.

(* ================================================================== *)
(** * Further properties of the code                                    *)
(* ================================================================== *)

(** ** Failure and dispatch *)

Lemma forget_throw (T : Type) (r : Result T) (e : JsError) :
  forget r = Throw e <-> r = Throw e.
Proof.
  destruct r; simpl; split; intros H; inversion H; reflexivity.
Qed.

Lemma bind_ok_throw (A B : Type) (m : Result A) (f : A -> B) (e : JsError) :
  (x <- m ;; Ok (f x)) = Throw e <-> m = Throw e.
Proof.
  destruct m; simpl; split; intros H; inversion H; reflexivity.
Qed.

(** X1. A tool called with arguments of its declared types (a string
    [repo_name], a string [query]) fails exactly when its first upstream
    fetch fails, and then with the error of that fetch; nothing after the
    fetch can make it fail. *)
Theorem tool_fails_only_with_its_fetch :
  forall (platform : Platform) (cfg : Config) (gh : Upstream) (t : Tool)
         (args : Json) (e : JsError),
    wellTyped t args ->
    (runTool cfg gh t args = Throw e <-> firstFetch cfg gh t args = Throw e).
Proof.
  intros platform cfg gh t args e Htyped.
  destruct t; cbn [runTool firstFetch toolPath]; rewrite forget_throw.
  - unfold handleListRepos. fold (listReposPath cfg). apply bind_ok_throw.
  - unfold handleGetRepoDetails. fold (repoPath cfg args).
    destruct (ghFetch cfg (repo_endpoint gh) (repoPath cfg args)); simpl;
      split; intros H; inversion H; reflexivity.
  - unfold handleGetLanguages. fold (languagesPath cfg args). apply bind_ok_throw.
  - unfold handleGetProfile. apply bind_ok_throw.
  - destruct Htyped as [q Hq]. unfold handleSearchRepos. fold (allReposPath cfg).
    rewrite Hq.
    destruct (ghFetch cfg (repos_endpoint gh) (allReposPath cfg)); simpl;
      split; intros H; inversion H; reflexivity.
  - unfold handleGetTechStackSummary. fold (allReposPath cfg). apply bind_ok_throw.
Qed.

Lemma tool_fails_only_with_its_fetch_witness :
  runTool (platform := ascii_platform) sample_config snapshot_down
          search_repos (args_query "cli")
  = Throw (Error ("GitHub API 503: Service Unavailable — "
                    ++ allReposPath sample_config)).
Proof.
  apply (proj2 (@tool_fails_only_with_its_fetch ascii_platform sample_config
                  snapshot_down search_repos (args_query "cli") _
                  (ex_intro _ "cli" eq_refl))).
  reflexivity.
Defined.

(** X2. When the upstream answers the first request of a registered
    tool with a status outside 2xx, the proxy answers 500 and its [error]
    names that status, its text and the requested path. *)
Theorem upstream_refusal_surfaces_as_500 :
  forall (platform : Platform) (cfg : Config) (gh : Upstream)
         (toolName : string) (t : Tool) (reqBody : Json) (code : Z) (reason : string),
    assoc toolName TOOL_REGISTRY = Some t ->
    firstStatus cfg gh t (nullish_or (field reqBody "args") (JObj []))
    = Ok (false, code, reason) ->
    callRoute cfg gh toolName reqBody
    = {| http_status := 500;
         http_json :=
           JObj [("error",
                  JStr ("Error: GitHub API " ++ Number_toString code ++ ": " ++ reason
                          ++ " — "
                          ++ toolPath cfg t (nullish_or (field reqBody "args") (JObj []))))] |}.
Proof.
  intros platform cfg gh toolName t reqBody code reason Hreg Hstatus.
  rewrite (callRoute_registered cfg gh reqBody Hreg).
  set (args := nullish_or (field reqBody "args") (JObj [])) in *.
  assert (Hfail : forall (T : Type) (endpoint : Fetch T) (path : string),
             statusLine (endpoint (apiRequest cfg path)) = Ok (false, code, reason) ->
             ghFetch cfg endpoint path
             = Throw (Error ("GitHub API " ++ Number_toString code ++ ": " ++ reason
                               ++ " — " ++ path))).
  { intros T endpoint path H. unfold ghFetch.
    destruct (endpoint (apiRequest cfg path)) as [res|err]; [|discriminate].
    simpl in H. inversion H as [[Hok Hcode Hreason]]. simpl.
    now rewrite Hok. }
  destruct t; cbn [firstStatus toolPath runTool] in *;
    apply Hfail in Hstatus.
  - unfold handleListRepos. fold (listReposPath cfg). now rewrite Hstatus.
  - unfold handleGetRepoDetails. fold (repoPath cfg args). now rewrite Hstatus.
  - unfold handleGetLanguages. fold (languagesPath cfg args). now rewrite Hstatus.
  - unfold handleGetProfile. now rewrite Hstatus.
  - unfold handleSearchRepos. fold (allReposPath cfg). now rewrite Hstatus.
  - unfold handleGetTechStackSummary. fold (allReposPath cfg). now rewrite Hstatus.
Qed.

Lemma upstream_refusal_surfaces_as_500_witness :
  callRoute (platform := ascii_platform) sample_config snapshot_down
            "get_profile" (JObj [])
  = {| http_status := 500;
       http_json :=
         JObj [("error",
                JStr "Error: GitHub API 503: Service Unavailable — /users/bdbrown4")] |}.
Proof.
  exact (@upstream_refusal_surfaces_as_500 ascii_platform sample_config snapshot_down
           "get_profile" get_profile (JObj []) 503 "Service Unavailable"
           eq_refl eq_refl).
Defined.

Lemma callRoute_404_status {platform : Platform} cfg gh toolName reqBody :
  http_status (callRoute cfg gh toolName reqBody) = 404%Z
  <-> assoc toolName TOOL_REGISTRY = None /\ plain toolName.
Proof.
  assert (Hsettle : forall r, http_status (settle r) <> 404%Z).
  { intros [text|err]; simpl; discriminate. }
  unfold callRoute, Get, plain.
  destruct (assoc toolName TOOL_REGISTRY) as [t|].
  - split; [intros H; now apply Hsettle in H | intros [H _]; discriminate].
  - destruct (assoc toolName Object_prototype) as [m|].
    + split; [intros H; now apply Hsettle in H | intros [_ H]; discriminate].
    + simpl. split; auto.
Qed.

(** X3. The proxy answers 404 exactly for the names that neither the
    registry nor [Object.prototype] defines; every other name reaches a
    handler and is answered with 200 or 500. *)
Theorem callRoute_404_iff :
  forall (platform : Platform) (cfg : Config) (gh : Upstream)
         (toolName : string) (reqBody : Json),
    (http_status (callRoute cfg gh toolName reqBody) = 404%Z
     <-> assoc toolName TOOL_REGISTRY = None /\ plain toolName)
    /\ (http_status (callRoute cfg gh toolName reqBody) = 404%Z
        \/ http_status (callRoute cfg gh toolName reqBody) = 200%Z
        \/ http_status (callRoute cfg gh toolName reqBody) = 500%Z).
Proof.
  intros platform cfg gh toolName reqBody.
  assert (Hsettle : forall r, http_status (settle r) = 200%Z
                              \/ http_status (settle r) = 500%Z).
  { intros [text|err]; simpl; auto. }
  unfold callRoute, Get, plain.
  destruct (assoc toolName TOOL_REGISTRY) as [t|].
  - destruct (Hsettle (text <- runTool cfg gh t
                                 (nullish_or (field reqBody "args") (JObj [])) ;;
                       Ok (JStr text))) as [H|H]; rewrite H.
    + split; [split; [discriminate | intros [Hn _]; discriminate] | auto].
    + split; [split; [discriminate | intros [Hn _]; discriminate] | auto].
  - destruct (assoc toolName Object_prototype) as [m|].
    + destruct (Hsettle (callInherited m (nullish_or (field reqBody "args") (JObj []))))
        as [H|H]; rewrite H.
      * split; [split; [discriminate | intros [_ Hn]; discriminate] | auto].
      * split; [split; [discriminate | intros [_ Hn]; discriminate] | auto].
    + simpl. split; [split; auto | auto].
Qed.

(** X4. A request body without [args], or with [args: null], is
    answered like one with [args: {}], whatever the tool name. *)
Theorem callRoute_default_args :
  forall (platform : Platform) (cfg : Config) (gh : Upstream)
         (toolName : string) (reqBody : Json),
    field reqBody "args" = None \/ field reqBody "args" = Some JNull ->
    callRoute cfg gh toolName reqBody
    = callRoute cfg gh toolName (JObj [("args", JObj [])]).
Proof.
  intros platform cfg gh toolName reqBody Hargs. unfold callRoute.
  assert (E : nullish_or (field reqBody "args") (JObj [])
              = nullish_or (field (JObj [("args", JObj [])]) "args") (JObj [])).
  { destruct Hargs as [-> | ->]; reflexivity. }
  now rewrite E.
Qed.

Lemma callRoute_default_args_witness :
  callRoute (platform := ascii_platform) sample_config (snapshot sample_repos)
            "list_repos" (JObj [("args", JNull)])
  = callRoute (platform := ascii_platform) sample_config (snapshot sample_repos)
              "list_repos" (JObj [("args", JObj [])]).
Proof.
  apply callRoute_default_args. right. reflexivity.
Defined.

(** ** The two transports and the static routes *)

(** X5. The tools registered with the protocol server and the registry
    of the proxy carry the same names in the same order, and under each
    name the proxy answers with what the registered callback yields: 200
    and the callback's envelope when it returns, 500 and the stringified
    error when it throws. *)
Theorem transports_share_handlers :
  forall (platform : Platform) (cfg : Config) (gh : Upstream),
    map fst (registeredTools cfg gh) = Object_keys TOOL_REGISTRY
    /\ forall (toolName : string) (callback : Json -> Result Json) (reqBody : Json),
         In (toolName, callback) (registeredTools cfg gh) ->
         callRoute cfg gh toolName reqBody
         = match callback (nullish_or (field reqBody "args") (JObj [])) with
           | Ok envelope => {| http_status := 200; http_json := envelope |}
           | Throw err =>
               {| http_status := 500;
                  http_json := JObj [("error", JStr (String_of_error err))] |}
           end.
Proof.
  intros platform cfg gh. split; [reflexivity|].
  intros toolName callback reqBody Hin.
  set (args := nullish_or (field reqBody "args") (JObj [])).
  unfold registeredTools in Hin. simpl in Hin.
  destruct Hin as [H|[H|[H|[H|[H|[H|[]]]]]]]; inversion H; subst; clear H.
  - rewrite (callRoute_registered cfg gh (toolName := "list_repos") reqBody
               (t := list_repos) eq_refl).
    fold args. cbn [runTool]. now destruct (handleListRepos cfg gh args).
  - rewrite (callRoute_registered cfg gh (toolName := "get_repo_details") reqBody
               (t := get_repo_details) eq_refl).
    fold args. cbn [runTool]. now destruct (handleGetRepoDetails cfg gh args).
  - rewrite (callRoute_registered cfg gh (toolName := "get_languages") reqBody
               (t := get_languages) eq_refl).
    fold args. cbn [runTool]. now destruct (handleGetLanguages cfg gh args).
  - rewrite (callRoute_registered cfg gh (toolName := "get_profile") reqBody
               (t := get_profile) eq_refl).
    fold args. cbn [runTool]. now destruct (handleGetProfile cfg gh).
  - rewrite (callRoute_registered cfg gh (toolName := "search_repos") reqBody
               (t := search_repos) eq_refl).
    fold args. cbn [runTool]. now destruct (handleSearchRepos cfg gh args).
  - rewrite (callRoute_registered cfg gh (toolName := "get_tech_stack_summary") reqBody
               (t := get_tech_stack_summary) eq_refl).
    fold args. cbn [runTool]. now destruct (handleGetTechStackSummary cfg gh).
Qed.

Lemma transports_share_handlers_witness :
  callRoute (platform := ascii_platform) sample_config snapshot_with_readme
            "get_profile" (JObj [])
  = match (text <- handleGetProfile sample_config snapshot_with_readme ;;
           Ok (JObj [("content", JArr [JObj [("type", JStr "text");
                                             ("text", JStr text)]])])) with
    | Ok envelope => {| http_status := 200; http_json := envelope |}
    | Throw err =>
        {| http_status := 500;
           http_json := JObj [("error", JStr (String_of_error err))] |}
    end.
Proof.
  exact (proj2 (@transports_share_handlers ascii_platform sample_config
                  snapshot_with_readme)
               "get_profile"
               (fun _ => text <- handleGetProfile sample_config snapshot_with_readme ;;
                         Ok (JObj [("content", JArr [JObj [("type", JStr "text");
                                                           ("text", JStr text)]])]))
               (JObj [])
               (or_intror (or_intror (or_intror (or_introl eq_refl))))).
Defined.

(** X6. The names that [GET /tools] lists are the names a 404 offers as
    available, [GET /health] reports how many they are, and calling any
    of them is never answered with 404. *)
Theorem routes_agree_on_tool_names :
  forall (platform : Platform) (cfg : Config) (gh : Upstream) (reqBody : Json),
    let names := Object_keys TOOL_REGISTRY in
    http_json toolsRoute = JObj [("tools", JArr (map JStr names))]
    /\ field (http_json (healthRoute cfg)) "tools" = Some (JNum (Z.of_nat (length names)))
    /\ (forall unknown,
           http_status (callRoute cfg gh unknown reqBody) = 404%Z ->
           field (http_json (callRoute cfg gh unknown reqBody)) "available"
           = field (http_json toolsRoute) "tools")
    /\ (forall toolName, In toolName names ->
                         http_status (callRoute cfg gh toolName reqBody) <> 404%Z).
Proof.
  intros platform cfg gh reqBody names. split; [reflexivity|]. split; [reflexivity|].
  split.
  - intros unknown H404.
    apply (proj1 (@callRoute_404_status platform cfg gh unknown reqBody)) in H404.
    destruct H404 as [Hreg Hplain].
    now rewrite (callRoute_unknown cfg gh reqBody Hreg Hplain).
  - intros toolName Hin H404.
    apply (proj1 (@callRoute_404_status platform cfg gh toolName reqBody)) in H404.
    destruct H404 as [Hreg _].
    simpl in Hin.
    destruct Hin as [<-|[<-|[<-|[<-|[<-|[<-|[]]]]]]]; discriminate.
Qed.

Lemma routes_agree_on_tool_names_witness :
  http_status (callRoute (platform := ascii_platform) sample_config
                         (snapshot sample_repos) "search_repos" (JObj []))
  <> 404%Z.
Proof.
  apply (proj2 (proj2 (proj2 (@routes_agree_on_tool_names ascii_platform sample_config
                                (snapshot sample_repos) (JObj []))))).
  simpl. tauto.
Defined.

(** ** The README resource and the request headers *)

(** X7. The README resource turns an answer outside 2xx into the
    placeholder text and still succeeds; but, having no [try], it fails
    when the request itself is rejected or the body cannot be read, where
    the details tool would fall back. *)
Theorem readme_resource_outcomes :
  forall (cfg : Config) (gh : Upstream) (href owner repo : string),
    (forall res,
        raw_endpoint gh (resourceReadmeRequest cfg owner repo) = Ok res ->
        ok res = false ->
        readmeResource cfg gh href owner repo
        = Ok {| content_uri := href; content_mimeType := "text/markdown";
                content_text := "(No README found)" |})
    /\ (forall res text,
           raw_endpoint gh (resourceReadmeRequest cfg owner repo) = Ok res ->
           ok res = true -> body res = Ok text ->
           readmeResource cfg gh href owner repo
           = Ok {| content_uri := href; content_mimeType := "text/markdown";
                   content_text := text |})
    /\ (forall e,
           raw_endpoint gh (resourceReadmeRequest cfg owner repo) = Throw e ->
           readmeResource cfg gh href owner repo = Throw e)
    /\ (forall res e,
           raw_endpoint gh (resourceReadmeRequest cfg owner repo) = Ok res ->
           ok res = true -> body res = Throw e ->
           readmeResource cfg gh href owner repo = Throw e).
Proof.
  intros cfg gh href owner repo. unfold readmeResource.
  split; [|split; [|split]].
  - intros res Hres Hok. rewrite Hres. simpl. now rewrite Hok.
  - intros res text Hres Hok Hbody. rewrite Hres. simpl. now rewrite Hok, Hbody.
  - intros e Hres. now rewrite Hres.
  - intros res e Hres Hok Hbody. rewrite Hres. simpl. now rewrite Hok, Hbody.
Qed.

Lemma readme_resource_outcomes_witness :
  readmeResource sample_config snapshot_without_readme
                 "github://bdbrown4/zeta/readme" "bdbrown4" "zeta"
  = Ok {| content_uri := "github://bdbrown4/zeta/readme";
          content_mimeType := "text/markdown";
          content_text := "(No README found)" |}.
Proof.
  exact (proj1 (@readme_resource_outcomes sample_config snapshot_without_readme
                  "github://bdbrown4/zeta/readme" "bdbrown4" "zeta")
               _ eq_refl eq_refl).
Defined.

(** X8. For the configured account the README resource and the details
    tool read the same request: whenever the resource delivers a text,
    the details tool shows that very text as its README section, and
    whenever the resource fails, the details tool still succeeds and
    shows the placeholder. *)
Theorem readme_resource_agrees_with_details :
  forall (cfg : Config) (gh : Upstream) (args : Json) (repo : GHRepo) (href : string),
    ghFetch cfg (repo_endpoint gh) (repoPath cfg args) = Ok repo ->
    (forall c,
        readmeResource cfg gh href (GITHUB_USERNAME cfg)
                       (ToString (field args "repo_name")) = Ok c ->
        handleGetRepoDetails cfg gh args = Ok (detailsText repo (content_text c)))
    /\ (forall e,
           readmeResource cfg gh href (GITHUB_USERNAME cfg)
                          (ToString (field args "repo_name")) = Throw e ->
           handleGetRepoDetails cfg gh args = Ok (detailsText repo "(No README found)")).
Proof.
  intros cfg gh args repo href Hrepo.
  assert (Hrun : handleGetRepoDetails cfg gh args
                 = Ok (detailsText repo
                         (fetchReadme cfg gh (ToString (field args "repo_name"))))).
  { unfold handleGetRepoDetails. unfold repoPath in Hrepo. now rewrite Hrepo. }
  rewrite Hrun. unfold readmeResource, fetchReadme.
  change (resourceReadmeRequest cfg (GITHUB_USERNAME cfg)
            (ToString (field args "repo_name")))
    with (readmeRequest cfg (ToString (field args "repo_name"))).
  destruct (raw_endpoint gh (readmeRequest cfg (ToString (field args "repo_name"))))
    as [res|err]; simpl.
  - destruct (ok res); simpl.
    + destruct (body res) as [text|err]; simpl.
      * split; [intros c H; now inversion H | intros e H; discriminate].
      * split; [intros c H; discriminate | reflexivity].
    + split; [intros c H; now inversion H | intros e H; discriminate].
  - split; [intros c H; discriminate | reflexivity].
Qed.

Lemma readme_resource_agrees_with_details_witness :
  handleGetRepoDetails sample_config snapshot_with_readme (args_repo "zeta")
  = Ok (detailsText (sample_repo "zeta" (Some "Go") 3 ["cli"] false) "# zeta").
Proof.
  exact (proj1 (@readme_resource_agrees_with_details sample_config snapshot_with_readme
                  (args_repo "zeta") (sample_repo "zeta" (Some "Go") 3 ["cli"] false)
                  "github://bdbrown4/zeta/readme" eq_refl)
               {| content_uri := "github://bdbrown4/zeta/readme";
                  content_mimeType := "text/markdown";
                  content_text := "# zeta" |}
               eq_refl).
Defined.

Lemma assoc_define_own (V : Type) (o : JsObject V) (k k' : string) (v : V) :
  assoc k' (define_own o k v) = if k =? k' then Some v else assoc k' o.
Proof.
  induction o as [|[a w] o IH]; simpl.
  - reflexivity.
  - destruct (String.eqb_spec a k) as [->|Ha]; simpl.
    + now destruct (k =? k').
    + rewrite IH. destruct (String.eqb_spec a k') as [->|Ha'].
      * destruct (String.eqb_spec k k'); [congruence | reflexivity].
      * reflexivity.
Qed.

(** X9. Requests carry [Authorization: Bearer <token>] exactly when
    [GITHUB_TOKEN] is set and not empty; and the README request sends the
    headers of every other request, credentials included, with only
    [Accept] replaced by the raw media type. *)
Theorem readme_request_keeps_credentials :
  forall (env : Env) (path repo_name : string),
    let cfg := config_of_env env in
    assoc "Authorization" (request_headers (apiRequest cfg path))
    = match env "GITHUB_TOKEN" with
      | Some token => if token =? "" then None else Some ("Bearer " ++ token)
      | None => None
      end
    /\ assoc "Accept" (request_headers (apiRequest cfg path))
       = Some "application/vnd.github.v3+json"
    /\ assoc "Accept" (request_headers (readmeRequest cfg repo_name))
       = Some "application/vnd.github.v3.raw"
    /\ (forall h, h <> "Accept" ->
                  assoc h (request_headers (readmeRequest cfg repo_name))
                  = assoc h (request_headers (apiRequest cfg path))).
Proof.
  intros env path repo_name cfg. unfold cfg, config_of_env, apiRequest, readmeRequest.
  cbn [request_headers headers].
  split; [|split; [|split]].
  - destruct (env "GITHUB_TOKEN") as [token|]; simpl; [|reflexivity].
    now destruct (token =? "").
  - destruct (env "GITHUB_TOKEN") as [token|]; simpl; [|reflexivity].
    now destruct (token =? "").
  - now rewrite assoc_define_own.
  - intros h Hh. rewrite assoc_define_own.
    destruct (String.eqb_spec "Accept" h); [congruence | reflexivity].
Qed.

Lemma readme_request_keeps_credentials_witness :
  assoc "Authorization"
        (request_headers (readmeRequest (config_of_env (env_of [("GITHUB_TOKEN", "t0k")]))
                                        "zeta"))
  = Some "Bearer t0k".
Proof.
  rewrite (proj2 (proj2 (proj2 (@readme_request_keeps_credentials
                                  (env_of [("GITHUB_TOKEN", "t0k")]) "/users/x" "zeta")))
                 "Authorization").
  - reflexivity.
  - discriminate.
Defined.

(** ** More about [search_repos] *)

Lemma Substring_trans (a b c : string) :
  Substring a b -> Substring b c -> Substring a c.
Proof.
  intros [pre [post Hb]] [pre' [post' Hc]]. subst.
  exists (pre' ++ pre), (post ++ post').
  now rewrite !string_app_assoc.
Qed.

Lemma Matches_weaken {platform : Platform} (q1 q2 : string) (r : GHRepo) :
  Substring q1 q2 -> Matches q2 r -> Matches q1 r.
Proof.
  intros Hsub [H|[[d [Hd H]]|[t [Ht H]]]].
  - left. exact (Substring_trans Hsub H).
  - right. left. exists d. split; [assumption | exact (Substring_trans Hsub H)].
  - right. right. exists t. split; [assumption | exact (Substring_trans Hsub H)].
Qed.

(** X10. Shortening a query never loses a hit: when the lower-cased
    query [q1] occurs inside the lower-cased query [q2], every repository
    that [search_repos] returns for [q2] it also returns for [q1], and in
    the same relative order. *)
Theorem search_shorter_query_keeps_hits :
  forall (platform : Platform) (repos : list GHRepo) (q1 q2 : string),
    Substring (toLowerCase q1) (toLowerCase q2) ->
    filter (matchesQuery (toLowerCase q2)) (filter (matchesQuery (toLowerCase q1)) repos)
    = filter (matchesQuery (toLowerCase q2)) repos.
Proof.
  intros platform repos q1 q2 Hsub.
  induction repos as [|r repos IH]; simpl; [reflexivity|].
  destruct (matchesQuery (toLowerCase q1) r) eqn:E1; simpl.
  - now rewrite IH.
  - destruct (matchesQuery (toLowerCase q2) r) eqn:E2; [|assumption].
    apply matchesQuery_spec in E2.
    apply (Matches_weaken Hsub) in E2. apply matchesQuery_spec in E2. congruence.
Qed.

Lemma search_shorter_query_keeps_hits_witness :
  filter (matchesQuery (platform := ascii_platform) (ascii_toLowerCase "CLI"))
         (filter (matchesQuery (platform := ascii_platform) (ascii_toLowerCase "cl"))
                 sample_repos)
  = filter (matchesQuery (platform := ascii_platform) (ascii_toLowerCase "CLI"))
           sample_repos.
Proof.
  apply (@search_shorter_query_keeps_hits ascii_platform sample_repos "cl" "CLI").
  exists "", "i". reflexivity.
Defined.

(** X11. The empty query, which the schema admits, matches every
    repository: the answer lists the whole upstream page, forks included,
    and is the no-match sentence only when the account has no
    repository at all. *)
Theorem search_empty_query_returns_all :
  forall (platform : Platform) (cfg : Config) (gh : Upstream)
         (repos : list GHRepo) (args : Json),
    toLowerCase "" = "" ->
    ghFetch cfg (repos_endpoint gh) (allReposPath cfg) = Ok repos ->
    field args "query" = Some (JStr "") ->
    handleSearchRepos cfg gh args
    = Ok (match repos with
          | [] => "No repositories matched " ++ dquote ++ dquote ++ "."
          | _ => JSON_stringify (JArr (map searchHit repos))
          end).
Proof.
  intros platform cfg gh repos args Hlower Hfetch Hquery.
  unfold handleSearchRepos. unfold allReposPath in Hfetch.
  rewrite Hfetch. simpl. rewrite Hquery, Hlower.
  assert (Hall : filter (matchesQuery "") repos = repos).
  { clear Hfetch. induction repos as [|r repos IH]; [reflexivity|].
    assert (Hr : matchesQuery "" r = true).
    { apply matchesQuery_spec. left. now exists "", (toLowerCase (name r)). }
    cbn [filter]. now rewrite Hr, IH. }
  rewrite Hall. now destruct repos.
Qed.

Lemma search_empty_query_returns_all_witness :
  handleSearchRepos (platform := ascii_platform) sample_config (snapshot sample_repos)
                    (args_query "")
  = Ok (JSON_stringify (JArr (map searchHit sample_repos))).
Proof.
  exact (@search_empty_query_returns_all ascii_platform sample_config
           (snapshot sample_repos) sample_repos (args_query "")
           eq_refl eq_refl eq_refl).
Defined.

(** X12. The search is insensitive to the case of the query: two
    queries with the same lower-case form select the same repositories,
    and give the same answer whenever anything matches; only the no-match
    sentence repeats the query as typed. *)
Theorem search_ignores_query_case :
  forall (platform : Platform) (cfg : Config) (gh : Upstream)
         (repos : list GHRepo) (args1 args2 : Json) (q1 q2 : string),
    toLowerCase q1 = toLowerCase q2 ->
    ghFetch cfg (repos_endpoint gh) (allReposPath cfg) = Ok repos ->
    field args1 "query" = Some (JStr q1) ->
    field args2 "query" = Some (JStr q2) ->
    filter (matchesQuery (toLowerCase q1)) repos
    = filter (matchesQuery (toLowerCase q2)) repos
    /\ (filter (matchesQuery (toLowerCase q1)) repos <> [] ->
        handleSearchRepos cfg gh args1 = handleSearchRepos cfg gh args2)
    /\ (filter (matchesQuery (toLowerCase q1)) repos = [] ->
        handleSearchRepos cfg gh args1 = Ok (noMatchSentence q1)
        /\ handleSearchRepos cfg gh args2 = Ok (noMatchSentence q2)).
Proof.
  intros platform cfg gh repos args1 args2 q1 q2 Hcase Hfetch H1 H2.
  unfold handleSearchRepos. unfold allReposPath in Hfetch.
  rewrite Hfetch. simpl. rewrite H1, H2, Hcase.
  split; [reflexivity|]. split.
  - intros Hsome.
    destruct (filter (matchesQuery (toLowerCase q2)) repos); [congruence | reflexivity].
  - intros Hnone. rewrite Hnone. split; reflexivity.
Qed.

Lemma search_ignores_query_case_witness :
  handleSearchRepos (platform := ascii_platform) sample_config (snapshot sample_repos)
                    (args_query "CLI")
  = handleSearchRepos (platform := ascii_platform) sample_config (snapshot sample_repos)
                      (args_query "cli").
Proof.
  apply (proj1 (proj2 (@search_ignores_query_case ascii_platform sample_config
                         (snapshot sample_repos) sample_repos
                         (args_query "CLI") (args_query "cli") "CLI" "cli"
                         eq_refl eq_refl eq_refl eq_refl))).
  vm_compute. discriminate.
Defined.

(** ** More about [list_repos] *)

(** X13. Sorting neither drops nor repeats a repository: the listing is
    a rearrangement of the whole upstream page when [include_forks] is
    truthy, and of its non-fork repositories otherwise; in particular it
    has as many entries. *)
Theorem list_repos_rearranges :
  forall (platform : Platform) (args : Json) (repos : list GHRepo),
    Permutation (listedRepos args repos)
                (if truthy (field args "include_forks") then repos
                 else withoutForks repos)
    /\ length (listedRepos args repos)
       = length (if truthy (field args "include_forks") then repos
                 else withoutForks repos).
Proof.
  intros platform args repos.
  assert (H : Permutation (listedRepos args repos)
                (if truthy (field args "include_forks") then repos
                 else withoutForks repos)).
  { unfold listedRepos, withoutForks.
    destruct (is_string (field args "sort") "stars"); [apply Array_sort_perm|].
    destruct (is_string (field args "sort") "name"); [apply Array_sort_perm|].
    apply Permutation_refl. }
  split; [exact H | now apply Permutation_length].
Qed.

(** X14. With [sort = "stars"], repositories with equally many stars
    keep the order in which the upstream returned them, that is most
    recently updated first. *)
Theorem list_repos_star_ties_keep_upstream_order :
  forall (platform : Platform) (args : Json) (repos : list GHRepo) (stars : Z),
    is_string (field args "sort") "stars" = true ->
    filter (fun r => (stargazers_count r =? stars)%Z) (listedRepos args repos)
    = filter (fun r => (stargazers_count r =? stars)%Z)
             (if truthy (field args "include_forks") then repos
              else withoutForks repos).
Proof.
  intros platform args repos stars Hsort.
  unfold listedRepos, withoutForks. rewrite Hsort.
  apply Array_sort_stable.
  intros x y _ _ Hx Hy. apply Z.eqb_eq in Hx, Hy. lia.
Qed.

Lemma list_repos_star_ties_keep_upstream_order_witness :
  map name
      (filter (fun r => (stargazers_count r =? 5)%Z)
              (listedRepos (platform := ascii_platform)
                           (JObj [("sort", JStr "stars")])
                           [ sample_repo "b" None 5 [] false;
                             sample_repo "c" None 9 [] false;
                             sample_repo "a" None 5 [] false ]))
  = ["b"; "a"].
Proof.
  rewrite (@list_repos_star_ties_keep_upstream_order ascii_platform
             (JObj [("sort", JStr "stars")])
             [ sample_repo "b" None 5 [] false;
               sample_repo "c" None 9 [] false;
               sample_repo "a" None 5 [] false ] 5 eq_refl).
  reflexivity.
Defined.

Lemma Array_sort_of_sorted (A : Type) (cmp : A -> A -> Z) (l : list A) :
  StronglySorted (fun a b => (cmp a b <= 0)%Z) l -> Array_sort cmp l = l.
Proof.
  induction 1 as [|x l Hs IH Hall]; simpl; [reflexivity|].
  rewrite IH. destruct l as [|y l]; [reflexivity|]. simpl.
  inversion Hall as [|? ? Hxy _]; subst.
  now rewrite (proj2 (Z.leb_le _ _) Hxy).
Qed.

Lemma withoutForks_fixed (l : list GHRepo) :
  Forall (fun r => fork r = false) l -> withoutForks l = l.
Proof.
  unfold withoutForks. induction 1 as [|r l Hr Hl IH]; simpl; [reflexivity|].
  now rewrite Hr, IH.
Qed.

(** X15. Listing is idempotent: feeding the listed repositories through
    the same filter and sort again changes nothing. *)
Theorem list_repos_idempotent :
  forall (platform : Platform) (args : Json) (repos : list GHRepo),
    Consistent localeCompare ->
    listedRepos args (listedRepos args repos) = listedRepos args repos.
Proof.
  intros platform args repos [Htot Htr].
  assert (Hfilter :
    (if truthy (field args "include_forks") then listedRepos args repos
     else filter (fun r => negb (fork r)) (listedRepos args repos))
    = listedRepos args repos).
  { destruct (truthy (field args "include_forks")) eqn:E; [reflexivity|].
    apply withoutForks_fixed. apply Forall_forall. intros r Hr.
    apply listedRepos_In in Hr. rewrite E in Hr.
    apply filter_In in Hr. destruct Hr as [_ Hr]. now apply negb_true_iff in Hr. }
  unfold listedRepos at 1. rewrite Hfilter.
  destruct (is_string (field args "sort") "stars") eqn:Es.
  - apply Array_sort_of_sorted. unfold listedRepos. rewrite Es.
    apply Array_sort_ordered with (P := fun _ => True);
      [intros; lia | intros; lia | now apply Forall_forall].
  - destruct (is_string (field args "sort") "name") eqn:En; [|reflexivity].
    apply Array_sort_of_sorted. unfold listedRepos. rewrite Es, En.
    apply Array_sort_ordered with (P := fun _ => True).
    + intros a b _ _. apply Htot.
    + intros a b c _ _ _. apply Htr.
    + now apply Forall_forall.
Qed.

Lemma list_repos_idempotent_witness :
  listedRepos (platform := ascii_platform) args_by_name
              (listedRepos (platform := ascii_platform) args_by_name sample_repos)
  = listedRepos (platform := ascii_platform) args_by_name sample_repos.
Proof.
  exact (@list_repos_idempotent ascii_platform args_by_name sample_repos
           codeunit_compare_consistent).
Defined.

(** ** More about [get_tech_stack_summary] *)

Lemma bump_keys (counts : JsObject Count) (k a : string) :
  In a (map fst (bump counts k)) -> a = k \/ In a (map fst counts).
Proof.
  unfold bump, Set_primitive.
  destruct (Get counts k) as [v|m|]; try destruct m;
    try (rewrite define_own_keys;
         destruct (existsb (String.eqb k) (map fst counts));
         [now right | rewrite in_app_iff; simpl; intuition]).
  now right.
Qed.

Lemma bump_fold_keys (keys : list string) (counts : JsObject Count) (a : string) :
  In a (map fst (fold_left bump keys counts)) -> In a keys \/ In a (map fst counts).
Proof.
  revert counts. induction keys as [|k keys IH]; intros counts H; simpl in *.
  - now right.
  - apply IH in H. destruct H as [H|H]; [now left; right|].
    apply bump_keys in H. destruct H as [->|H]; [left; now left | now right].
Qed.

(** X16. Whatever the upstream sends, every language and every topic in
    the summary is carried by some non-fork repository of the page, and
    no language entry has the empty name. *)
Theorem tech_stack_entries_come_from_originals :
  forall (repos : list GHRepo),
    (forall l, In l (map fst (summary_languages (techStackSummary repos))) ->
               l <> "" /\ exists r, In r repos /\ fork r = false /\ language r = Some l)
    /\ (forall t, In t (map fst (summary_topics (techStackSummary repos))) ->
                  exists r, In r repos /\ fork r = false /\ In t (topics r)).
Proof.
  intros repos. rewrite techStackSummary_unfold. simpl.
  assert (Horiginal : forall r, In r (withoutForks repos) ->
                                In r repos /\ fork r = false).
  { intros r Hr. apply filter_In in Hr. destruct Hr as [Hin Hf].
    split; [assumption | now apply negb_true_iff in Hf]. }
  split.
  - intros l Hl.
    apply (Permutation_in _ (Permutation_map fst (ranked_perm _))) in Hl.
    apply bump_fold_keys in Hl. destruct Hl as [Hl|[]].
    unfold languageKeys in Hl. apply in_flat_map in Hl.
    destruct Hl as [r [Hr Hl]]. destruct (Horiginal r Hr) as [Hin Hf].
    destruct (language r) as [l'|] eqn:El; [|contradiction].
    destruct (String.eqb_spec l' "") as [->|Hne]; [contradiction|].
    destruct Hl as [<-|[]]. split; [assumption|].
    exists r. now repeat split.
  - intros t Ht.
    apply (Permutation_in _ (Permutation_map fst (ranked_perm _))) in Ht.
    apply bump_fold_keys in Ht. destruct Ht as [Ht|[]].
    unfold topicKeys in Ht. apply in_flat_map in Ht.
    destruct Ht as [r [Hr Ht]]. destruct (Horiginal r Hr) as [Hin Hf].
    exists r. now repeat split.
Qed.

Lemma tech_stack_entries_come_from_originals_witness :
  exists r, In r sample_repos /\ fork r = false /\ In "cli" (topics r).
Proof.
  apply (proj2 (tech_stack_entries_come_from_originals sample_repos) "cli").
  simpl. now left.
Defined.

Lemma withoutForks_perm (l l' : list GHRepo) :
  Permutation l l' -> Permutation (withoutForks l) (withoutForks l').
Proof.
  unfold withoutForks. induction 1 as [|x l l' H IH|x y l|l l' l'' H1 IH1 H2 IH2]; simpl.
  - constructor.
  - destruct (negb (fork x)); [now constructor | assumption].
  - destruct (negb (fork x)), (negb (fork y)); try apply Permutation_refl.
    apply perm_swap.
  - now apply perm_trans with (filter (fun r => negb (fork r)) l').
Qed.

Lemma flat_map_perm (A B : Type) (f : A -> list B) (l l' : list A) :
  Permutation l l' -> Permutation (flat_map f l) (flat_map f l').
Proof.
  induction 1 as [|x l l' H IH|x y l|l l' l'' H1 IH1 H2 IH2]; simpl.
  - constructor.
  - now apply Permutation_app_head.
  - rewrite !app_assoc. apply Permutation_app_tail, Permutation_app_comm.
  - now apply perm_trans with (flat_map f l').
Qed.

Lemma occurrences_perm (keys keys' : list string) (k : string) :
  Permutation keys keys' -> occurrences k keys = occurrences k keys'.
Proof.
  intros H. unfold occurrences. f_equal.
  induction H as [|x l l' H IH|x y l|l l' l'' H1 IH1 H2 IH2]; simpl.
  - reflexivity.
  - now rewrite IH.
  - destruct (string_dec y k), (string_dec x k); reflexivity.
  - congruence.
Qed.

Lemma tallied_perm (keys keys' : list string) :
  Permutation keys keys' -> Permutation (tallied keys) (tallied keys').
Proof.
  intros H. unfold tallied.
  rewrite (map_ext _ (fun k => (k, CNum (occurrences k keys')))).
  - apply Permutation_map. apply NoDup_Permutation; try apply first_seen_NoDup.
    intros k. rewrite !first_seen_In.
    split; apply Permutation_in; [assumption | now apply Permutation_sym].
  - intros k. now rewrite (occurrences_perm k H).
Qed.

(** X17. The order in which the upstream returns the repositories
    decides only the order among entries of equal count: for two pages
    holding the same repositories the summary has the same total and the
    same language and topic entries with the same counts.  (Names of
    [Object.prototype] properties are set aside, as above.) *)
Theorem tech_stack_counts_ignore_upstream_order :
  forall (repos repos' : list GHRepo),
    Permutation repos repos' ->
    Forall plain (languageKeys (withoutForks repos)) ->
    Forall plain (topicKeys (withoutForks repos)) ->
    total_original_repos (techStackSummary repos)
    = total_original_repos (techStackSummary repos')
    /\ Permutation (summary_languages (techStackSummary repos))
                   (summary_languages (techStackSummary repos'))
    /\ Permutation (summary_topics (techStackSummary repos))
                   (summary_topics (techStackSummary repos')).
Proof.
  intros repos repos' Hperm HL HT.
  pose proof (withoutForks_perm Hperm) as Ho.
  assert (HkL : Permutation (languageKeys (withoutForks repos))
                            (languageKeys (withoutForks repos')))
    by (apply flat_map_perm, Ho).
  assert (HkT : Permutation (topicKeys (withoutForks repos))
                            (topicKeys (withoutForks repos')))
    by (apply flat_map_perm, Ho).
  assert (HL' : Forall plain (languageKeys (withoutForks repos')))
    by (eapply Permutation_Forall; eassumption).
  assert (HT' : Forall plain (topicKeys (withoutForks repos')))
    by (eapply Permutation_Forall; eassumption).
  destruct (techStackSummary_plain HL HT) as [-> ->].
  destruct (techStackSummary_plain HL' HT') as [-> ->].
  split; [|split].
  - rewrite !techStackSummary_unfold. simpl. f_equal. now apply Permutation_length.
  - eapply perm_trans; [apply ranked_perm|].
    eapply perm_trans; [apply tallied_perm, HkL|].
    apply Permutation_sym, ranked_perm.
  - eapply perm_trans; [apply ranked_perm|].
    eapply perm_trans; [apply tallied_perm, HkT|].
    apply Permutation_sym, ranked_perm.
Qed.

Lemma tech_stack_counts_ignore_upstream_order_witness :
  Permutation (summary_languages (techStackSummary sample_repos))
              (summary_languages (techStackSummary (rev sample_repos))).
Proof.
  refine (proj1 (proj2 (@tech_stack_counts_ignore_upstream_order
                          sample_repos (rev sample_repos) _ _ _))).
  - apply Permutation_rev.
  - repeat constructor.
  - repeat constructor.
Defined.

(** X18. The summary and the default listing agree on how many original
    repositories there are: [total_original_repos] is the number of
    entries [list_repos] returns without forks, for two pages holding the
    same repositories in whatever order. *)
Theorem tech_stack_total_matches_listing :
  forall (platform : Platform) (args : Json) (repos repos' : list GHRepo),
    Permutation repos repos' ->
    truthy (field args "include_forks") = false ->
    total_original_repos (techStackSummary repos)
    = Z.of_nat (length (listedRepos args repos')).
Proof.
  intros platform args repos repos' Hperm Hno.
  rewrite techStackSummary_unfold. simpl. f_equal.
  rewrite (Permutation_length (withoutForks_perm Hperm)).
  symmetry. apply Permutation_length.
  assert (H : forall r, In r (listedRepos args repos') <-> In r (withoutForks repos')).
  { intros r. rewrite listedRepos_In. now rewrite Hno. }
  unfold listedRepos. rewrite Hno. fold (withoutForks repos').
  destruct (is_string (field args "sort") "stars"); [apply Array_sort_perm|].
  destruct (is_string (field args "sort") "name"); [apply Array_sort_perm|].
  apply Permutation_refl.
Qed.

Lemma tech_stack_total_matches_listing_witness :
  total_original_repos (techStackSummary sample_repos)
  = Z.of_nat (length (listedRepos (platform := ascii_platform) args_by_name
                                  (rev sample_repos))).
Proof.
  exact (@tech_stack_total_matches_listing ascii_platform args_by_name sample_repos
           (rev sample_repos) (Permutation_rev sample_repos) eq_refl).
Defined.

(** ** More about [get_languages] *)

Lemma languageBreakdown_entry (languages : JsObject N) (e : LanguageShare) :
  let total := fold_left N.add (Object_values languages) 0%N in
  In e (languageBreakdown languages) ->
  (share_bytes e <= total)%N
  /\ percentage e
     = if (0 <? total)%N
       then format_tenths (shareTenths total (share_bytes e)) ++ "%"
       else "0%".
Proof.
  intros total He.
  assert (Hbytes : In (share_bytes e) (Object_values languages)).
  { unfold languageBreakdown in He. apply in_map_iff in He.
    destruct He as [kv [<- Hkv]]. simpl. unfold Object_values. now apply in_map. }
  split.
  - unfold total. rewrite fold_left_Nsum. simpl. now apply Nsum_In.
  - unfold languageBreakdown in He. apply in_map_iff in He.
    destruct He as [kv [<- _]]. reflexivity.
Qed.

(** X19. With a positive total no line of the breakdown prints less
    than 0.0% or more than 100.0%. *)
Theorem language_percentages_in_range :
  forall (languages : JsObject N),
    let total := fold_left N.add (Object_values languages) 0%N in
    (0 < total)%N -> (total < 2 ^ 53)%N ->
    Forall (fun e => exists tenths : Z,
                percentage e = format_tenths tenths ++ "%"
                /\ (0 <= tenths <= 1000)%Z)
           (languageBreakdown languages).
Proof.
  intros languages total Hpos Hsafe. apply Forall_forall. intros e He.
  destruct (languageBreakdown_entry He) as [Hle Hpct]. fold total in Hle, Hpct.
  rewrite (proj2 (N.ltb_lt 0 total) Hpos) in Hpct.
  exists (shareTenths total (share_bytes e)). split; [assumption|].
  now apply shareTenths_range.
Qed.

Lemma language_percentages_in_range_witness :
  Forall (fun e => exists tenths : Z,
              percentage e = format_tenths tenths ++ "%"
              /\ (0 <= tenths <= 1000)%Z)
         (languageBreakdown (JSON_parse_object [("Go", 300%N); ("Shell", 100%N)])).
Proof.
  exact (@language_percentages_in_range
           (JSON_parse_object [("Go", 300%N); ("Shell", 100%N)]) eq_refl eq_refl).
Defined.

(** X20. With a positive total, a language that accounts for all the
    bytes is printed as [100.0%] and a language with no bytes as [0.0%],
    which differs from the [0%] printed when the total is zero. *)
Theorem language_extreme_shares :
  forall (languages : JsObject N) (e : LanguageShare),
    let total := fold_left N.add (Object_values languages) 0%N in
    (0 < total)%N -> (total < 2 ^ 53)%N ->
    In e (languageBreakdown languages) ->
    (share_bytes e = total -> percentage e = "100.0%")
    /\ (share_bytes e = 0%N -> percentage e = "0.0%").
Proof.
  intros languages e total Hpos Hsafe He.
  destruct (languageBreakdown_entry He) as [Hle Hpct]. fold total in Hle, Hpct.
  rewrite (proj2 (N.ltb_lt 0 total) Hpos) in Hpct.
  split; intros Hb; rewrite Hpct, Hb.
  - now rewrite (shareTenths_whole Hpos Hsafe).
  - unfold shareTenths. now rewrite sharePercent_zero.
Qed.

Lemma language_extreme_shares_witness :
  In {| share_language := "Nix"; share_bytes := 0; percentage := "0.0%" |}
     (languageBreakdown (JSON_parse_object [("Go", 512%N); ("Nix", 0%N)]))
  /\ percentage (nth 0 (languageBreakdown
                          (JSON_parse_object [("Go", 512%N); ("Nix", 0%N)]))
                     {| share_language := ""; share_bytes := 0; percentage := "" |})
     = "100.0%".
Proof.
  split.
  - right. left. reflexivity.
  - exact (proj1 (@language_extreme_shares
                    (JSON_parse_object [("Go", 512%N); ("Nix", 0%N)])
                    (nth 0 (languageBreakdown
                              (JSON_parse_object [("Go", 512%N); ("Nix", 0%N)]))
                         {| share_language := ""; share_bytes := 0; percentage := "" |})
                    eq_refl eq_refl (or_introl eq_refl))
                 eq_refl).
Defined.

(** ** More about the start-up *)

Lemma digit_char (m : Z) :
  (0 <= m < 10)%Z ->
  is_digit (ascii_of_nat (48 + Z.to_nat m)) = true
  /\ Z.of_nat (nat_of_ascii (ascii_of_nat (48 + Z.to_nat m)) - 48) = m.
Proof.
  intros Hm.
  assert (E : nat_of_ascii (ascii_of_nat (48 + Z.to_nat m)) = (48 + Z.to_nat m)%nat).
  { apply nat_ascii_embedding. lia. }
  unfold is_digit. rewrite E. split.
  - apply andb_true_iff. split; apply Nat.leb_le; lia.
  - lia.
Qed.

Lemma leading_digits_step (c : ascii) (rest : string) (a : option Z) :
  is_digit c = true ->
  leading_digits (String c rest) a
  = leading_digits rest
      (Some (10 * match a with Some x => x | None => 0 end
             + Z.of_nat (nat_of_ascii c - 48))%Z).
Proof. intros H. simpl. now rewrite H. Qed.

(** The decimal spelling that [digits_of_pos_fuel] builds starts with a
    digit and reads back as the number. *)
Lemma digits_read_back (fuel : nat) :
  forall n : Z,
    (0 <= n < 10 ^ Z.of_nat (S fuel))%Z ->
    exists c D,
      is_digit c = true
      /\ (forall acc, digits_of_pos_fuel (S fuel) n acc = String c D ++ acc)
      /\ (forall rest, leading_digits (String c D ++ rest) None
                       = leading_digits rest (Some n)).
Proof.
  induction fuel as [|fuel IH]; intros n Hn;
    assert (Hmod : (0 <= n mod 10 < 10)%Z) by (apply Z.mod_pos_bound; lia);
    destruct (digit_char Hmod) as [Hd Hv];
    assert (Hone : forall f acc, (n < 10)%Z ->
              digits_of_pos_fuel (S f) n acc
              = String (ascii_of_nat (48 + Z.to_nat (n mod 10))) EmptyString ++ acc)
      by (intros f acc Hlt; cbn [digits_of_pos_fuel];
          now rewrite (proj2 (Z.ltb_lt n 10) Hlt));
    assert (Hsingle : (n < 10)%Z ->
              forall rest,
                leading_digits
                  (String (ascii_of_nat (48 + Z.to_nat (n mod 10))) EmptyString ++ rest)
                  None
                = leading_digits rest (Some n))
      by (intros Hlt rest; simpl append;
          rewrite (leading_digits_step _ _ Hd), Hv;
          rewrite Z.mod_small by lia; reflexivity).
  - assert (Hlt : (n < 10)%Z) by (simpl in Hn; lia).
    eexists _, EmptyString. split; [exact Hd|]. split.
    + intros acc. now apply Hone.
    + now apply Hsingle.
  - destruct (Z.lt_ge_cases n 10) as [Hlt|Hbig].
    + eexists _, EmptyString. split; [exact Hd|]. split.
      * intros acc. now apply Hone.
      * now apply Hsingle.
    + assert (Hdiv : (0 <= n / 10 < 10 ^ Z.of_nat (S fuel))%Z).
      { split; [apply Z.div_pos; lia|].
        apply Z.div_lt_upper_bound; [lia|].
        rewrite (Nat2Z.inj_succ (S fuel)), Z.pow_succ_r in Hn by lia. lia. }
      destruct (IH (n / 10)%Z Hdiv) as [c [D [Hc [Hbuild Hread]]]].
      exists c, (D ++ String (ascii_of_nat (48 + Z.to_nat (n mod 10))) EmptyString).
      split; [assumption|]. split.
      * intros acc. cbn [digits_of_pos_fuel].
        rewrite (proj2 (Z.ltb_ge n 10) Hbig).
        change (digits_of_pos_fuel (S fuel) (n / 10)
                  (String (ascii_of_nat (48 + Z.to_nat (n mod 10))) EmptyString ++ acc)
                = String c (D ++ String (ascii_of_nat (48 + Z.to_nat (n mod 10)))
                                        EmptyString) ++ acc).
        rewrite Hbuild. simpl. f_equal. now rewrite string_app_assoc.
      * intros rest.
        change (String c (D ++ String (ascii_of_nat (48 + Z.to_nat (n mod 10)))
                                      EmptyString) ++ rest)
          with (String c ((D ++ String (ascii_of_nat (48 + Z.to_nat (n mod 10)))
                                       EmptyString) ++ rest)).
        rewrite string_app_assoc.
        change (String c (D ++ String (ascii_of_nat (48 + Z.to_nat (n mod 10)))
                                      EmptyString ++ rest))
          with (String c D
                ++ String (ascii_of_nat (48 + Z.to_nat (n mod 10))) rest).
        rewrite Hread, (leading_digits_step _ _ Hd), Hv.
        f_equal. f_equal. pose proof (Z.div_mod n 10). lia.
Qed.

Lemma skip_whitespace_digit (c : ascii) (rest : string) :
  is_digit c = true -> skip_whitespace (String c rest) = String c rest.
Proof.
  unfold is_digit. intros H. apply andb_true_iff in H. destruct H as [Hlo Hhi].
  apply Nat.leb_le in Hlo, Hhi.
  cbn [skip_whitespace].
  assert (E1 : (Nat.leb 9 (nat_of_ascii c) && Nat.leb (nat_of_ascii c) 13
                || Nat.eqb (nat_of_ascii c) 32) = false).
  { apply orb_false_iff. split.
    - apply andb_false_iff. right. apply Nat.leb_gt. lia.
    - apply Nat.eqb_neq. lia. }
  rewrite E1.
  assert (N194 : Nat.eqb (nat_of_ascii c) 194 = false) by (apply Nat.eqb_neq; lia).
  assert (N225 : Nat.eqb (nat_of_ascii c) 225 = false) by (apply Nat.eqb_neq; lia).
  assert (N226 : Nat.eqb (nat_of_ascii c) 226 = false) by (apply Nat.eqb_neq; lia).
  assert (N227 : Nat.eqb (nat_of_ascii c) 227 = false) by (apply Nat.eqb_neq; lia).
  assert (N239 : Nat.eqb (nat_of_ascii c) 239 = false) by (apply Nat.eqb_neq; lia).
  destruct rest as [|c2 [|c3 rest3]]; try reflexivity.
  - now rewrite N194.
  - now rewrite N194, N225, N226, N227, N239.
Qed.

Lemma parseInt10_of_decimal (n : Z) :
  (0 <= n)%Z -> parseInt10 (Number_toString n) = Some n.
Proof.
  intros Hn. unfold Number_toString.
  destruct (Z.ltb_spec n 0) as [Hneg|_]; [lia|].
  unfold digits_of_nonneg.
  assert (Hfuel : (0 <= n < 10 ^ Z.of_nat (S (Z.to_nat (Z.log2 n))))%Z).
  { split; [assumption|].
    destruct (Z.eq_dec n 0) as [->|Hne]; [reflexivity|].
    pose proof (Z.log2_nonneg n) as Hl.
    destruct (Z.log2_spec n ltac:(lia)) as [_ Hhi].
    rewrite Nat2Z.inj_succ, Z2Nat.id by assumption.
    eapply Z.lt_le_trans; [exact Hhi|].
    apply Z.pow_le_mono_l. lia. }
  destruct (digits_read_back Hfuel) as [c [D [Hc [Hbuild Hread]]]].
  rewrite Hbuild.
  assert (E : String c D ++ "" = String c D).
  { clear. generalize (String c D). intros s.
    induction s as [|x s IH]; simpl; [reflexivity | now rewrite IH]. }
  specialize (Hread ""). rewrite E in *.
  unfold parseInt10. rewrite (skip_whitespace_digit _ Hc).
  unfold is_digit in Hc. apply andb_true_iff in Hc. destruct Hc as [Hlo Hhi].
  apply Nat.leb_le in Hlo, Hhi.
  destruct (Nat.eqb_spec (nat_of_ascii c) 45) as [H45|_]; [lia|].
  destruct (Nat.eqb_spec (nat_of_ascii c) 43) as [H43|_]; [lia|].
  exact Hread.
Qed.

(** X21. Setting [PORT] to the decimal spelling of a port number, 1 to
    65535, starts the HTTP transport on exactly that port, whatever else
    the environment holds. *)
Theorem port_decimal_selects_http :
  forall (env : Env) (n : Z),
    (0 < n <= 65535)%Z ->
    env "PORT" = Some (Number_toString n) ->
    main env = HttpActive n.
Proof.
  intros env n Hn Hport.
  pose proof (@parseInt10_of_decimal n ltac:(lia)) as Hparse.
  unfold main, PORT. rewrite Hport.
  assert (Hne : (Number_toString n =? "") = false).
  { apply String.eqb_neq. intros E. rewrite E in Hparse. discriminate. }
  rewrite Hne. simpl. rewrite Hparse.
  now rewrite (proj2 (Z.eqb_neq n 0) ltac:(lia)).
Qed.

Lemma port_decimal_selects_http_witness :
  main (env_of [("RENDER", "true"); ("PORT", "8080")]) = HttpActive 8080.
Proof.
  apply (@port_decimal_selects_http (env_of [("RENDER", "true"); ("PORT", "8080")])
           8080); [lia | reflexivity].
Defined.

(** X22. An explicit, non-empty [PORT] alone decides the transport: two
    environments that agree on it start the same transport, whatever
    platform variables either of them sets. *)
Theorem explicit_port_overrides_platform :
  forall (env1 env2 : Env) (p : string),
    p <> "" ->
    env1 "PORT" = Some p -> env2 "PORT" = Some p ->
    main env1 = main env2.
Proof.
  intros env1 env2 p Hne H1 H2. unfold main, PORT. rewrite H1, H2.
  apply String.eqb_neq in Hne. now rewrite Hne.
Qed.

Lemma explicit_port_overrides_platform_witness :
  main (env_of [("PORT", "abc"); ("RAILWAY_ENVIRONMENT", "production")])
  = main (env_of [("PORT", "abc")]).
Proof.
  apply (@explicit_port_overrides_platform _ _ "abc"); [discriminate | | ]; reflexivity.
Defined.
